(** * Address derivation engine of the multi-chain auditor (src/derivation.js)

    A shallow embedding of [deriveAddresses], [derivePrivateKey] and the six
    per-family derivation loops, together with the properties of the
    design specification that concern them.

    The JavaScript functions run in a small state-and-exception monad: the
    state is the world the program can touch (console output and the
    sequence of calls into the imported packages), exceptions are [throw].
    The imported npm packages (bip39, ethers, ed25519-hd-key, ...) are
    interfaces, one type class per package.

    The second half covers what the balance checkers and the report do
    around their requests: the two [retryRequest] wrappers, [getBTCBalance]
    and [getStacksBalance], and the counting of [generateSummary]. *)

From Stdlib Require Import ZArith String Ascii List Lia PrimFloat.
From stdpp Require Import base tactics option list list_numbers gmap sets strings pretty.

Local Open Scope string_scope.
Local Open Scope list_scope.
Local Open Scope Z_scope.

(** ** The JavaScript run-time the module relies on *)

Module JS.

(** Values thrown by [throw]. *)
Inductive exn : Type :=
| JsError (msg : string)       (* new Error(msg) *)
| JsTypeError (msg : string)   (* raised by the engine itself *)
| JsRangeError (msg : string).

Inductive result (A : Type) : Type :=
| Ok (a : A)
| Throw (e : exn).
Arguments Ok {A} a.
Arguments Throw {A} e.

(** What a call can do to the outside: print a line, or enter a function
    of an imported package.  The second kind is ghost instrumentation: it
    records that the call was attempted, nothing else. *)
Inductive Event : Type :=
| console_log (line : string)
| lib_call (package fn arg : string).

Definition World : Type := list Event.

Definition M (A : Type) : Type := World -> World * result A.

Definition ret {A} (a : A) : M A := fun w => (w, Ok a).

Definition throw {A} (e : exn) : M A := fun w => (w, Throw e).

Definition bind {A B} (m : M A) (k : A -> M B) : M B :=
  fun w => match m w with
           | (w', Ok a) => k a w'
           | (w', Throw e) => (w', Throw e)
           end.

(** [try { m } catch (error) { h error }] *)
Definition try_catch {A} (m : M A) (h : exn -> M A) : M A :=
  fun w => match m w with
           | (w', Ok a) => (w', Ok a)
           | (w', Throw e) => h e w'
           end.

Definition log (line : string) : M unit :=
  fun w => (w ++ [console_log line], Ok tt).

(** A call into an imported package: the call is recorded, its outcome is
    the value or the exception the package function produces. *)
Definition call {A} (package fn arg : string) (r : result A) : M A :=
  fun w => (w ++ [lib_call package fn arg], r).

(** [for (const x of xs) { s = body x s }] with the loop-carried variables
    in [s]. *)
Fixpoint for_of {X S} (xs : list X) (body : X -> S -> M S) (s : S) : M S :=
  match xs with
  | [] => ret s
  | x :: xs' => bind (body x s) (for_of xs' body)
  end.

(** [for (let i = 0; i < count; i++) { s = body i s }] *)
Definition for_range {S} (count : Z) (body : Z -> S -> M S) (s : S) : M S :=
  for_of (seqZ 0 count) body s.

(** [hay.includes(needle)] *)
Fixpoint includes (hay needle : string) : bool :=
  if String.prefix needle hay then true
  else match hay with
       | EmptyString => false
       | String _ hay' => includes hay' needle
       end.

(** [s.slice(from, to)] for non-negative [from <= to]; out-of-range ends
    are clamped to the string, as in JavaScript. *)
Definition slice (s : string) (from to : nat) : string :=
  String.substring from (to - from) s.

(** [`${n}`] for an integral number that is a safe integer (below 2^53 in
    absolute value), as the loop indices are: the decimal numeral.  Beyond
    that range a JavaScript number cannot hold every integer, and from 1e21
    it is printed with an exponent. *)
Definition number_toString (n : Z) : string := pretty n.

(** Truthiness of a possibly undefined string. *)
Definition truthy (s : option string) : bool :=
  match s with
  | Some EmptyString | None => false
  | Some _ => true
  end.

(** [buf.toString("hex")] *)
Definition hex_digit (n : Z) : ascii :=
  match n with
  | 0 => "0" | 1 => "1" | 2 => "2" | 3 => "3" | 4 => "4" | 5 => "5"
  | 6 => "6" | 7 => "7" | 8 => "8" | 9 => "9" | 10 => "a" | 11 => "b"
  | 12 => "c" | 13 => "d" | 14 => "e" | _ => "f"
  end%char.

Fixpoint Buffer_toString_hex (buf : list Z) : string :=
  match buf with
  | [] => EmptyString
  | b :: buf' =>
      String (hex_digit (b / 16)) (String (hex_digit (b mod 16))
        (Buffer_toString_hex buf'))
  end.

Definition outcome {A} (m : M A) (w : World) : result A := snd (m w).
Definition world_after {A} (m : M A) (w : World) : World := fst (m w).

End JS.
Import JS.

Notation "'let!' x := m 'in' k" := (bind m (fun x => k))
  (at level 10, x name, m at level 100, k at level 200).
Notation "'do!' m 'in' k" := (bind m (fun _ => k))
  (at level 10, m at level 100, k at level 200).

(** A binary buffer (Node's [Buffer], [Uint8Array]): bytes as integers in
    [0, 256). *)
Definition Buffer : Type := list Z.

(** ** The imported packages *)

(** [import * as bip39 from "bip39"] *)
Class Bip39 := {
  validateMnemonic : string -> bool;
  mnemonicToSeedSync : string -> Buffer;
}.

(** [import { HDNodeWallet } from "ethers"] *)
Class Ethers := {
  HDNodeWallet : Type;
  HDNodeWallet_fromSeed : Buffer -> result HDNodeWallet;
  HDNodeWallet_derivePath : HDNodeWallet -> string -> result HDNodeWallet;
  wallet_address : HDNodeWallet -> string;
  wallet_privateKey : HDNodeWallet -> string;
}.

(** [import { derivePath } from "ed25519-hd-key"]; the result is
    [{ key, chainCode }]. *)
Record Keys := { key : Buffer; chainCode : Buffer }.

Class Ed25519HdKey := {
  derivePath : string -> string -> result Keys;
}.

(** [import { Keypair } from "@solana/web3.js"] *)
Class SolanaWeb3 := {
  Keypair : Type;
  Keypair_fromSeed : Buffer -> result Keypair;
  publicKey_toBase58 : Keypair -> result string;
}.

(** [bip32 = BIP32Factory(ecc)] and [import * as bitcoin from "bitcoinjs-lib"];
    a payment is [{ address?, ... }]. *)
Class BitcoinJs := {
  BIP32 : Type;
  Payment : Type;
  bip32_fromSeed : Buffer -> result BIP32;
  bip32_derivePath : BIP32 -> string -> result BIP32;
  bip32_publicKey : BIP32 -> Buffer;
  payments_p2wpkh : Buffer -> result Payment;
  payments_p2sh : Payment -> result Payment;
  payments_p2pkh : Buffer -> result Payment;
  payment_address : Payment -> option string;
}.

(** [import { Ed25519Keypair } from "@mysten/sui.js/keypairs/ed25519"] *)
Class SuiSdk := {
  Ed25519Keypair : Type;
  Ed25519Keypair_fromSecretKey : Buffer -> result Ed25519Keypair;
  toSuiAddress : Ed25519Keypair -> result string;
}.

(** [import { Ed25519PrivateKey } from "@aptos-labs/ts-sdk"] *)
Class AptosSdk := {
  Ed25519PrivateKey : Type;
  Ed25519PrivateKey_new : Buffer -> result Ed25519PrivateKey;
  authKey_toString : Ed25519PrivateKey -> result string;
}.

(** ** src/derivation.js *)

(** The loop-carried variables of a family loop: the [addresses] array and
    the [seen] set. *)
Record Collected := { addresses : list string; seen : gset string }.

Definition nothing_collected : Collected := {| addresses := []; seen := ∅ |}.

(** [if (!seen.has(a)) { addresses.push(a); seen.add(a); }] *)
Definition push_if_new (a : string) (st : Collected) : Collected :=
  if decide (a ∈ seen st) then st
  else {| addresses := addresses st ++ [a]; seen := seen st ∪ {[ a ]} |}.

(** [DERIVATION_PATHS]: family name to array of path templates. *)
Definition PathFn : Type := Z -> string.

Definition DERIVATION_PATHS_evm : list PathFn :=
  [ fun index => "m/44'/60'/0'/0/" +:+ number_toString index ].
Definition DERIVATION_PATHS_solana : list PathFn :=
  [ fun index => "m/44'/501'/" +:+ number_toString index +:+ "'/0'" ].
Definition DERIVATION_PATHS_bitcoin : list PathFn :=
  [ fun index => "m/84'/0'/0'/0/" +:+ number_toString index;
    fun index => "m/44'/0'/0'/0/" +:+ number_toString index ].
Definition DERIVATION_PATHS_stacks : list PathFn :=
  [ fun index => "m/44'/5757'/0'/0/" +:+ number_toString index ].
Definition DERIVATION_PATHS_sui : list PathFn :=
  [ fun index => "m/44'/784'/" +:+ number_toString index +:+ "'/0'/0'";
    fun index => "m/44'/784'/0'/0'/" +:+ number_toString index +:+ "'";
    fun index => "m/44'/784'/0'/0/" +:+ number_toString index ].
Definition DERIVATION_PATHS_aptos : list PathFn :=
  [ fun index => "m/44'/637'/" +:+ number_toString index +:+ "'/0'/0'";
    fun index => "m/44'/637'/0'/0'/" +:+ number_toString index +:+ "'" ].

Definition DERIVATION_PATHS : list (string * list PathFn) :=
  [ ("evm", DERIVATION_PATHS_evm);
    ("solana", DERIVATION_PATHS_solana);
    ("bitcoin", DERIVATION_PATHS_bitcoin);
    ("stacks", DERIVATION_PATHS_stacks);
    ("sui", DERIVATION_PATHS_sui);
    ("aptos", DERIVATION_PATHS_aptos) ].

(** The result of a property read [DERIVATION_PATHS[chain]]: the array
    stored under that key, or [undefined]. *)
Inductive value : Type :=
| VUndefined
| VArray (elems : list PathFn)
| VFunction (f : PathFn).

Fixpoint assoc {V} (k : string) (kvs : list (string * V)) : option V :=
  match kvs with
  | [] => None
  | (k', v) :: kvs' => if decide (k = k') then Some v else assoc k kvs'
  end.

Definition DERIVATION_PATHS_get (chain : string) : value :=
  match assoc chain DERIVATION_PATHS with
  | Some templates => VArray templates
  | None => VUndefined
  end.

(** A call expression [callee(arg)]: only a function can be called. *)
Definition apply_value (callee_text : string) (callee : value) (arg : Z) : M string :=
  match callee with
  | VFunction f => ret (f arg)
  | _ => throw (JsTypeError (callee_text +:+ " is not a function"))
  end.

(** The Address Set: the object literal returned by [deriveAddresses], its
    keys in insertion order. *)
Definition AddressSet : Type := list (string * list string).

Section Derivation.

Context {bip39 : Bip39} {ethers : Ethers} {ed25519_hd_key : Ed25519HdKey}
        {solana_web3 : SolanaWeb3} {bitcoinjs : BitcoinJs}
        {sui_sdk : SuiSdk} {aptos_sdk : AptosSdk}.

(** [deriveEVMAddresses(seed, count)]: no [try] around the derivation. *)
Definition deriveEVMAddresses (seed : Buffer) (count : Z) : M (list string) :=
  let! hdNode := call "ethers" "HDNodeWallet.fromSeed" ""
                   (HDNodeWallet_fromSeed seed) in
  let! st :=
    for_range count (fun i =>
      for_of DERIVATION_PATHS_evm (fun pathFn st =>
        let path := pathFn i in
        let! wallet := call "ethers" "hdNode.derivePath" path
                         (HDNodeWallet_derivePath hdNode path) in
        ret (push_if_new (wallet_address wallet) st)))
      nothing_collected in
  ret (addresses st).

(** [deriveSolanaAddresses(seed, count)] *)
Definition deriveSolanaAddresses (seed : Buffer) (count : Z) : M (list string) :=
  let! st :=
    for_range count (fun i =>
      for_of DERIVATION_PATHS_solana (fun pathFn st =>
        try_catch
          (let path := pathFn i in
           let! derived := call "ed25519-hd-key" "derivePath" path
                             (derivePath path (Buffer_toString_hex seed)) in
           let! keypair := call "@solana/web3.js" "Keypair.fromSeed" path
                             (Keypair_fromSeed (key derived)) in
           let! address := call "@solana/web3.js" "publicKey.toBase58" path
                             (publicKey_toBase58 keypair) in
           ret (push_if_new address st))
          (fun error => ret st)))
      nothing_collected in
  ret (addresses st).

(** [deriveBitcoinAddresses(seed, count)] *)
Definition deriveBitcoinAddresses (seed : Buffer) (count : Z) : M (list string) :=
  let! root := call "bip32" "fromSeed" "" (bip32_fromSeed seed) in
  let! st :=
    for_range count (fun i =>
      for_of DERIVATION_PATHS_bitcoin (fun pathFn st =>
        try_catch
          (let path := pathFn i in
           let! child := call "bip32" "root.derivePath" path
                           (bip32_derivePath root path) in
           let! payment :=
             if includes path "m/84'" then
               call "bitcoinjs-lib" "payments.p2wpkh" path
                 (payments_p2wpkh (bip32_publicKey child))
             else if includes path "m/49'" then
               let! redeem := call "bitcoinjs-lib" "payments.p2wpkh" path
                                (payments_p2wpkh (bip32_publicKey child)) in
               call "bitcoinjs-lib" "payments.p2sh" path (payments_p2sh redeem)
             else
               call "bitcoinjs-lib" "payments.p2pkh" path
                 (payments_p2pkh (bip32_publicKey child)) in
           match payment_address payment with
           | Some a => if truthy (Some a) then ret (push_if_new a st) else ret st
           | None => ret st
           end)
          (fun error => ret st)))
      nothing_collected in
  ret (addresses st).

(** [deriveStacksAddresses(seed, count)]: no [try], no [seen] set; every
    candidate is pushed. *)
Definition deriveStacksAddresses (seed : Buffer) (count : Z) : M (list string) :=
  let! hdNode := call "ethers" "HDNodeWallet.fromSeed" ""
                   (HDNodeWallet_fromSeed seed) in
  let! addresses :=
    for_range count (fun i =>
      for_of DERIVATION_PATHS_stacks (fun pathFn addresses =>
        let path := pathFn i in
        let! wallet := call "ethers" "hdNode.derivePath" path
                         (HDNodeWallet_derivePath hdNode path) in
        ret (addresses ++ ["SP" +:+ slice (wallet_address wallet) 2 42])))
      [] in
  do! log "  ⚠️  Stacks derivation: Using simplified implementation" in
  ret addresses.

(** [deriveSuiAddresses(seed, count)] *)
Definition deriveSuiAddresses (seed : Buffer) (count : Z) : M (list string) :=
  let! st :=
    for_range count (fun i =>
      for_of DERIVATION_PATHS_sui (fun pathFn st =>
        try_catch
          (let path := pathFn i in
           let! derived := call "ed25519-hd-key" "derivePath" path
                             (derivePath path (Buffer_toString_hex seed)) in
           let! keypair := call "@mysten/sui.js" "Ed25519Keypair.fromSecretKey" path
                             (Ed25519Keypair_fromSecretKey (key derived)) in
           let! address := call "@mysten/sui.js" "toSuiAddress" path
                             (toSuiAddress keypair) in
           ret (push_if_new address st))
          (fun error => ret st)))
      nothing_collected in
  ret (addresses st).

(** [deriveAptosAddresses(seed, count)] *)
Definition deriveAptosAddresses (seed : Buffer) (count : Z) : M (list string) :=
  let! st :=
    for_range count (fun i =>
      for_of DERIVATION_PATHS_aptos (fun pathFn st =>
        try_catch
          (let path := pathFn i in
           let! derived := call "ed25519-hd-key" "derivePath" path
                             (derivePath path (Buffer_toString_hex seed)) in
           let! privateKey := call "@aptos-labs/ts-sdk" "new Ed25519PrivateKey" path
                                (Ed25519PrivateKey_new (key derived)) in
           let! address := call "@aptos-labs/ts-sdk" "authKey.toString" path
                             (authKey_toString privateKey) in
           ret (push_if_new address st))
          (fun error => ret st)))
      nothing_collected in
  ret (addresses st).

(** [deriveAddresses(seedPhrase, count = 5)]; an omitted [count] is
    [None].  The count is an integral number, as the specification has it;
    the loops compare it with [i < count] and never inspect it otherwise. *)
Definition deriveAddresses (seedPhrase : string) (count : option Z) : M AddressSet :=
  let count := default 5 count in
  let! valid := call "bip39" "validateMnemonic" seedPhrase
                  (Ok (validateMnemonic seedPhrase)) in
  if negb valid then throw (JsError "Invalid BIP39 seed phrase")
  else
    let! seed := call "bip39" "mnemonicToSeedSync" seedPhrase
                   (Ok (mnemonicToSeedSync seedPhrase)) in
    do! log ("🔐 Deriving addresses (all derivations are LOCAL)..."
             +:+ String "010" "") in
    let! evm := deriveEVMAddresses seed count in
    let! solana := deriveSolanaAddresses seed count in
    let! bitcoin := deriveBitcoinAddresses seed count in
    let! stacks := deriveStacksAddresses seed count in
    let! sui := deriveSuiAddresses seed count in
    let! aptos := deriveAptosAddresses seed count in
    ret [ ("evm", evm); ("solana", solana); ("bitcoin", bitcoin);
          ("stacks", stacks); ("sui", sui); ("aptos", aptos) ].

(** [derivePrivateKey(seedPhrase, chain, index = 0)] *)
Definition derivePrivateKey (seedPhrase chain : string) (index : option Z)
  : M string :=
  let index := default 0 index in
  let! seed := call "bip39" "mnemonicToSeedSync" seedPhrase
                 (Ok (mnemonicToSeedSync seedPhrase)) in
  if bool_decide (chain = "evm") || bool_decide (chain = "stacks") then
    let! hdNode := call "ethers" "HDNodeWallet.fromSeed" ""
                     (HDNodeWallet_fromSeed seed) in
    let! path := apply_value "DERIVATION_PATHS[chain]"
                   (DERIVATION_PATHS_get chain) index in
    let! wallet := call "ethers" "hdNode.derivePath" path
                     (HDNodeWallet_derivePath hdNode path) in
    ret (wallet_privateKey wallet)
  else if bool_decide (chain = "solana") || bool_decide (chain = "sui")
          || bool_decide (chain = "aptos") then
    let! path := apply_value "DERIVATION_PATHS[chain]"
                   (DERIVATION_PATHS_get chain) index in
    let! derived := call "ed25519-hd-key" "derivePath" path
                      (derivePath path (Buffer_toString_hex seed)) in
    ret (Buffer_toString_hex (key derived))
  else
    throw (JsError ("Private key derivation not implemented for " +:+ chain)).

(** *** Names used by the proofs

    The bodies of the inner loops, the path strings of the two un-guarded
    families, and what it means for the un-guarded derivations to return. *)

Definition evm_candidate (hdNode : HDNodeWallet) (i : Z) (pathFn : PathFn)
           (st : Collected) : M Collected :=
  let path := pathFn i in
  let! wallet := call "ethers" "hdNode.derivePath" path
                   (HDNodeWallet_derivePath hdNode path) in
  ret (push_if_new (wallet_address wallet) st).

Definition solana_candidate (seed : Buffer) (_ : unit) (i : Z) (pathFn : PathFn)
           (st : Collected) : M Collected :=
  try_catch
    (let path := pathFn i in
     let! derived := call "ed25519-hd-key" "derivePath" path
                       (derivePath path (Buffer_toString_hex seed)) in
     let! keypair := call "@solana/web3.js" "Keypair.fromSeed" path
                       (Keypair_fromSeed (key derived)) in
     let! address := call "@solana/web3.js" "publicKey.toBase58" path
                       (publicKey_toBase58 keypair) in
     ret (push_if_new address st))
    (fun error => ret st).

Definition bitcoin_candidate (root : BIP32) (i : Z) (pathFn : PathFn)
           (st : Collected) : M Collected :=
  try_catch
    (let path := pathFn i in
     let! child := call "bip32" "root.derivePath" path
                     (bip32_derivePath root path) in
     let! payment :=
       if includes path "m/84'" then
         call "bitcoinjs-lib" "payments.p2wpkh" path
           (payments_p2wpkh (bip32_publicKey child))
       else if includes path "m/49'" then
         let! redeem := call "bitcoinjs-lib" "payments.p2wpkh" path
                          (payments_p2wpkh (bip32_publicKey child)) in
         call "bitcoinjs-lib" "payments.p2sh" path (payments_p2sh redeem)
       else
         call "bitcoinjs-lib" "payments.p2pkh" path
           (payments_p2pkh (bip32_publicKey child)) in
     match payment_address payment with
     | Some a => if truthy (Some a) then ret (push_if_new a st) else ret st
     | None => ret st
     end)
    (fun error => ret st).

Definition stacks_candidate (hdNode : HDNodeWallet) (i : Z) (pathFn : PathFn)
           (addresses : list string) : M (list string) :=
  let path := pathFn i in
  let! wallet := call "ethers" "hdNode.derivePath" path
                   (HDNodeWallet_derivePath hdNode path) in
  ret (addresses ++ ["SP" +:+ slice (wallet_address wallet) 2 42]).

Definition sui_candidate (seed : Buffer) (_ : unit) (i : Z) (pathFn : PathFn)
           (st : Collected) : M Collected :=
  try_catch
    (let path := pathFn i in
     let! derived := call "ed25519-hd-key" "derivePath" path
                       (derivePath path (Buffer_toString_hex seed)) in
     let! keypair := call "@mysten/sui.js" "Ed25519Keypair.fromSecretKey" path
                       (Ed25519Keypair_fromSecretKey (key derived)) in
     let! address := call "@mysten/sui.js" "toSuiAddress" path
                       (toSuiAddress keypair) in
     ret (push_if_new address st))
    (fun error => ret st).

Definition aptos_candidate (seed : Buffer) (_ : unit) (i : Z) (pathFn : PathFn)
           (st : Collected) : M Collected :=
  try_catch
    (let path := pathFn i in
     let! derived := call "ed25519-hd-key" "derivePath" path
                       (derivePath path (Buffer_toString_hex seed)) in
     let! privateKey := call "@aptos-labs/ts-sdk" "new Ed25519PrivateKey" path
                          (Ed25519PrivateKey_new (key derived)) in
     let! address := call "@aptos-labs/ts-sdk" "authKey.toString" path
                       (authKey_toString privateKey) in
     ret (push_if_new address st))
    (fun error => ret st).

Definition evm_path (i : Z) : string := "m/44'/60'/0'/0/" +:+ number_toString i.
Definition stacks_path (i : Z) : string := "m/44'/5757'/0'/0/" +:+ number_toString i.

(** The Stacks loop pushes one entry per index, in index order. *)
Definition stacks_entry (h : HDNodeWallet) (i : Z) (a : string) : Prop :=
  ∃ wallet, HDNodeWallet_derivePath h (stacks_path i) = Ok wallet
            ∧ a = "SP" +:+ slice (wallet_address wallet) 2 42.


End Derivation.

(** ** The balance checkers: what they share *)

(** [await new Promise((resolve) => setTimeout(resolve, ms))]: the wait is
    recorded in the world. *)
Definition sleep (ms : Z) : M unit :=
  call "timers" "setTimeout" (number_toString ms) (Ok tt).

(** [console.error(line)] *)
Definition console_error (line : string) : M unit :=
  call "console" "error" line (Ok tt).

(** [error.message] *)
Definition message (error : exn) : string :=
  match error with
  | JsError msg | JsTypeError msg | JsRangeError msg => msg
  end.

(** The other properties the checkers read from a caught error:
    [error.code] (set by ethers) and [error.response.status] (set by axios
    when the server answered); [None] when the property is missing. *)
Class ErrorFields := {
  error_code : exn -> option string;
  error_response_status : exn -> option Z;
}.

(** [n.toString()] for a BigInt. *)
Definition BigInt_toString (n : Z) : string := pretty n.

(** A pure expression that can throw, such as a conversion. *)
Definition eval_expr {A} (r : result A) : M A := fun w => (w, r).

(** What the body of a loop inside a function can do apart from throwing:
    [return v], or fall through to the next iteration. *)
Inductive Control (R : Type) : Type :=
| Return (v : R)
| Continue.
Arguments Return {R} v.
Arguments Continue {R}.

(** [for (const x of xs) { body x }] as the last statement of a function:
    the function returns what the body returns, or [undefined] when the
    loop runs out. *)
Fixpoint for_of_returning {X R} (xs : list X) (body : X -> M (Control R))
  : M (option R) :=
  match xs with
  | [] => ret None
  | x :: xs' =>
      let! c := body x in
      match c with
      | Return v => ret (Some v)
      | Continue => for_of_returning xs' body
      end
  end.

(** ** src/report.js, the Bitcoin checker *)

Module bitcoin_checker.

(** [retryRequest(fn, maxRetries = 3)], for an integral [maxRetries]. *)
Definition retryRequest {A} (fn : M A) (maxRetries : option Z) : M (option A) :=
  let maxRetries := default 3 maxRetries in
  for_of_returning (seqZ 0 maxRetries) (fun i =>
    try_catch
      (let! a := fn in ret (Return a))
      (fun error =>
         if decide (i = maxRetries - 1) then throw error
         else do! sleep (2000 * (i + 1)) in ret Continue)).

Section getBTCBalance.

(** [getBalanceBlockstream] and [getBalanceMempool] each send one request and
    turn the reply into [{ balance, transactions }]. *)
Context {BalanceInfo : Type}.
Variables getBalanceBlockstream getBalanceMempool : string -> M BalanceInfo.

(** [getBTCBalance(address)] *)
Definition getBTCBalance (address : string) : M (option BalanceInfo) :=
  try_catch
    (retryRequest (getBalanceBlockstream address) None)
    (fun error =>
       do! console_error
             "    ⚠️  Blockstream API failed, trying Mempool.space..." in
       try_catch
         (retryRequest (getBalanceMempool address) None)
         (fun fallbackError => throw (JsError "All Bitcoin APIs failed"))).

End getBTCBalance.

End bitcoin_checker.

(** ** src/derivation.js, the EVM checker *)

Module evm_checker.

(** The errors [retryRequest] does not retry. *)
Definition not_retried {error_fields : ErrorFields} (error : exn) : bool :=
  includes (message error) "Unauthorized"
  || includes (message error) "API key"
  || bool_decide (error_code error = Some "BAD_DATA").

(** [retryRequest(fn, maxRetries = 2, delay = 800)], for an integral
    [maxRetries]. *)
Definition retryRequest {error_fields : ErrorFields} {A} (fn : M A)
    (maxRetries delay : option Z) : M (option A) :=
  let maxRetries := default 2 maxRetries in
  let delay := default 800 delay in
  for_of_returning (seqZ 0 maxRetries) (fun i =>
    try_catch
      (let! a := fn in ret (Return a))
      (fun error =>
         if decide (i = maxRetries - 1) then throw error
         else if not_retried error then throw error
         else do! sleep delay in ret Continue)).

End evm_checker.

(** ** src/derivation.js, the Stacks checker *)

Module stacks_checker.

Definition STACKS_API : string := "https://api.mainnet.hiro.so".

(** The JSON values of a reply and [BigInt(v)], which throws unless [v]
    denotes an integer. *)
Class Json := {
  json : Type;
  BigInt : json -> result Z;
}.

(** [response.data.stx], as far as it is read. *)
Record Stx {json_values : Json} := { stx_balance : json; stx_locked : json }.

(** [{ balance, locked }] *)
Record StacksBalance := { balance : string; locked : string }.

Section getStacksBalance.

Context {json_values : Json} {error_fields : ErrorFields}.

(** [axios.get(url, { timeout: 10000 })]; of the reply, [Some stx] when
    [response.data && response.data.stx] holds. *)
Variable axios_get : string -> M (option Stx).

(** [getStacksBalance(address)]; the quotient of two BigInts is rounded
    toward zero. *)
Definition getStacksBalance (address : string) : M StacksBalance :=
  try_catch
    (let! stx := axios_get (STACKS_API +:+ "/extended/v1/address/" +:+ address
                            +:+ "/balances") in
     match stx with
     | Some stx =>
         let! b := eval_expr (BigInt (stx_balance stx)) in
         let balance := b ÷ 1000000 in
         let! l := eval_expr (BigInt (stx_locked stx)) in
         ret {| balance := BigInt_toString balance;
                locked := BigInt_toString (l ÷ 1000000) |}
     | None => ret {| balance := "0"; locked := "0" |}
     end)
    (fun error =>
       if bool_decide (error_response_status error = Some 404)
       then ret {| balance := "0"; locked := "0" |}
       else throw error).

End getStacksBalance.

End stacks_checker.

(** ** src/report.js, the summary *)

Module report.

(** Truthiness of a possibly undefined number: [0], [-0] and [NaN] are
    falsy. *)
Definition truthy_number (x : option float) : bool :=
  match x with
  | Some x => negb (PrimFloat.eqb x 0%float) && PrimFloat.eqb x x
  | None => false
  end.

(** [obj[k] = v] for an object [v], on a plain object with string keys,
    given as [Object.entries] lists it.  The key [__proto__] is the accessor
    inherited from [Object.prototype]: assigning to it replaces the prototype
    of [obj] and makes no entry. *)
Fixpoint obj_set {V} (k : string) (v : V) (obj : list (string * V))
  : list (string * V) :=
  if decide (k = "__proto__") then obj
  else
    match obj with
    | [] => [(k, v)]
    | (k', v') :: obj' =>
        if decide (k = k') then (k, v) :: obj' else (k', v') :: obj_set k v obj'
    end.

(** What [generateSummary] reads of [results[chain][address]]. *)
Record AddressData := {
  hasActivity : bool;
  usdValue : option float;
  error : option string;
}.

(** [{ addressesWithFunds, totalUsdValue }], an entry of
    [summary.balancesByChain]. *)
Record ChainBalance := {
  chain_addressesWithFunds : Z;
  totalUsdValue : float;
}.

(** [{ chain, address, error }], an entry of [summary.errors]. *)
Record ErrorEntry := {
  entry_chain : string;
  entry_address : string;
  entry_error : string;
}.

Record Summary := {
  totalAddressesChecked : Z;
  addressesWithFunds : Z;
  chainsChecked : Z;
  chainsWithFunds : list string;
  totalUsdEstimate : float;
  balancesByChain : list (string * ChainBalance);
  errors : list ErrorEntry;
}.

(** The variables of the inner loop: [summary], [chainTotal] and
    [chainAddressesWithFunds]. *)
Record ChainLoop := {
  summary : Summary;
  chainTotal : float;
  chainAddressesWithFunds : Z;
}.

(** The body of the inner loop, for one [[address, data]]. *)
Definition count_address (chain : string) (st : ChainLoop)
    (entry : string * AddressData) : ChainLoop :=
  let '(address, data) := entry in
  let s := summary st in
  let total := totalAddressesChecked s + 1 in
  let funds := if hasActivity data then addressesWithFunds s + 1
               else addressesWithFunds s in
  let chainAddressesWithFunds :=
    if hasActivity data then chainAddressesWithFunds st + 1
    else chainAddressesWithFunds st in
  let chainTotal :=
    if hasActivity data then
      match usdValue data with
      | Some usd => if truthy_number (Some usd)
                    then (chainTotal st + usd)%float else chainTotal st
      | None => chainTotal st
      end
    else chainTotal st in
  let errors :=
    match error data with
    | Some msg => if truthy (Some msg)
                  then errors s ++ [{| entry_chain := chain;
                                       entry_address := address;
                                       entry_error := msg |}]
                  else errors s
    | None => errors s
    end in
  {| summary := {| totalAddressesChecked := total;
                   addressesWithFunds := funds;
                   chainsChecked := chainsChecked s;
                   chainsWithFunds := chainsWithFunds s;
                   totalUsdEstimate := totalUsdEstimate s;
                   balancesByChain := balancesByChain s;
                   errors := errors |};
     chainTotal := chainTotal;
     chainAddressesWithFunds := chainAddressesWithFunds |}.

(** The body of the outer loop, for one [[chain, addresses]]. *)
Definition count_chain (s : Summary) (entry : string * list (string * AddressData))
  : Summary :=
  let '(chain, addresses) := entry in
  let st := fold_left (count_address chain) addresses
              {| summary := s; chainTotal := 0%float;
                 chainAddressesWithFunds := 0 |} in
  let s := summary st in
  if decide (0 < chainAddressesWithFunds st) then
    {| totalAddressesChecked := totalAddressesChecked s;
       addressesWithFunds := addressesWithFunds s;
       chainsChecked := chainsChecked s;
       chainsWithFunds := chainsWithFunds s ++ [chain];
       totalUsdEstimate := totalUsdEstimate s;
       balancesByChain :=
         obj_set chain
           {| chain_addressesWithFunds := chainAddressesWithFunds st;
              totalUsdValue := chainTotal st |}
           (balancesByChain s);
       errors := errors s |}
  else s.

(** [generateSummary(results)], with [results] and every [results[chain]]
    given as [Object.entries] lists them; the counters stay far below 2^53,
    where [++] is exact. *)
Definition generateSummary (results : list (string * list (string * AddressData)))
  : Summary :=
  fold_left count_chain results
    {| totalAddressesChecked := 0;
       addressesWithFunds := 0;
       chainsChecked := Z.of_nat (length results);
       chainsWithFunds := [];
       totalUsdEstimate := 0%float;
       balancesByChain := [];
       errors := [] |}.

End report.

(** ** Test doubles for the imported packages

    Small deterministic stand-ins, used to run the engine on concrete
    inputs.  A wallet is the path it was derived at. *)

Module Mock.

Definition test_mnemonic : string :=
  "abandon abandon abandon abandon abandon abandon abandon abandon abandon abandon abandon about".

Definition code_units (s : string) : Buffer :=
  map (fun c => Z.of_nat (nat_of_ascii c)) (list_ascii_of_string s).

(** The last component of a path is hardened. *)
Definition ends_hardened (path : string) : bool :=
  match String.get (String.length path - 1) path with
  | Some c => bool_decide (c = "039"%char)
  | None => false
  end.

Definition bip39 : Bip39 :=
  {| validateMnemonic m := bool_decide (m = test_mnemonic);
     mnemonicToSeedSync m := code_units m |}.

(** [address_of] turns a path into the wallet's address; [rejected] tells
    the paths at which the derivation throws. *)
Definition ethers (address_of : string -> string) (rejected : string -> bool)
  : Ethers :=
  {| HDNodeWallet := string;
     HDNodeWallet_fromSeed seed := Ok "m";
     HDNodeWallet_derivePath node path :=
       if rejected path then Throw (JsError "invalid path index") else Ok path;
     wallet_address := address_of;
     wallet_privateKey node := "0x" +:+ node |}.

(** Like the real package, only fully hardened paths are derived. *)
Definition ed25519_hd_key : Ed25519HdKey :=
  {| derivePath path seed_hex :=
       if ends_hardened path
       then Ok {| key := code_units path; chainCode := [] |}
       else Throw (JsError "Invalid derivation path") |}.

Definition solana_web3 : SolanaWeb3 :=
  {| Keypair := Buffer;
     Keypair_fromSeed k := Ok k;
     publicKey_toBase58 k := Ok (Buffer_toString_hex k) |}.

Definition bitcoinjs : BitcoinJs :=
  {| BIP32 := string;
     Payment := option string;
     bip32_fromSeed seed := Ok "m";
     bip32_derivePath node path := Ok path;
     bip32_publicKey node := code_units node;
     payments_p2wpkh pubkey := Ok (Some ("bc1q" +:+ Buffer_toString_hex pubkey));
     payments_p2sh redeem := Ok ((fun a => "3" +:+ a) <$> redeem);
     payments_p2pkh pubkey := Ok (Some ("1" +:+ Buffer_toString_hex pubkey));
     payment_address payment := payment |}.

Definition sui_sdk : SuiSdk :=
  {| Ed25519Keypair := Buffer;
     Ed25519Keypair_fromSecretKey k := Ok k;
     toSuiAddress k := Ok ("0x" +:+ Buffer_toString_hex k) |}.

Definition aptos_sdk : AptosSdk :=
  {| Ed25519PrivateKey := Buffer;
     Ed25519PrivateKey_new k := Ok k;
     authKey_toString k := Ok ("0x" +:+ Buffer_toString_hex k) |}.

(** Addresses that differ from path to path, and no failing path. *)
Definition ethers_plain : Ethers :=
  ethers (fun path => "0x" +:+ path) (fun _ => false).


(** The derivation of index 1 of the EVM template fails. *)
Definition ethers_failing : Ethers :=
  ethers (fun path => "0x" +:+ path)
         (fun path => bool_decide (path = "m/44'/60'/0'/0/1")).

(** [deriveAddresses] and [derivePrivateKey] over the doubles. *)
Definition run_deriveAddresses (e : Ethers) :=
  @deriveAddresses bip39 e ed25519_hd_key solana_web3 bitcoinjs sui_sdk aptos_sdk.

Definition run_derivePrivateKey (e : Ethers) :=
  @derivePrivateKey bip39 e ed25519_hd_key.

End Mock.

(** *** Further doubles: a failing Stacks derivation, requests, replies *)

(** The derivation of index 1 of the Stacks template fails. *)
Definition ethers_failing_stacks : Ethers :=
  Mock.ethers (fun path => "0x" +:+ path)
              (fun path => bool_decide (path = "m/44'/5757'/0'/0/1")).



(** The seed of the test mnemonic. *)
Definition test_seed : Buffer :=
  mnemonicToSeedSync (Bip39 := Mock.bip39) Mock.test_mnemonic.

(** A request that is refused, and one that is answered, whatever happened
    before. *)
Definition refused (url : string) : M Z :=
  call "axios" "get" url (Throw (JsError "connect ETIMEDOUT")).

Definition answered (url : string) (satoshis : Z) : M Z :=
  call "axios" "get" url (Ok satoshis).

(** Errors as axios makes them: the status is in the message. *)
Definition axios_errors : ErrorFields :=
  {| error_code := fun _ => None;
     error_response_status := fun e =>
       if decide (message e = "Request failed with status code 404")
       then Some 404 else None |}.

(** Replies whose amounts are integers or missing. *)
Definition amounts : stacks_checker.Json :=
  {| stacks_checker.json := option Z;
     stacks_checker.BigInt := fun v =>
       match v with
       | Some n => Ok n
       | None => Throw (JsTypeError "Cannot convert undefined to a BigInt")
       end |}.

(** A Hiro API that knows two accounts: SP1 with integer amounts (the
    locked one negative, to tell rounding toward zero from rounding down),
    SP2 with a reply that lacks [locked]. *)
Definition hiro (url : string) : M (option (@stacks_checker.Stx amounts)) :=
  call "axios" "get" url
    (if decide (url = "https://api.mainnet.hiro.so/extended/v1/address/SP1/balances")
     then Ok (Some (@stacks_checker.Build_Stx amounts (Some 1999999) (Some (-2500000))))
     else if decide (url = "https://api.mainnet.hiro.so/extended/v1/address/SP2/balances")
     then Ok (Some (@stacks_checker.Build_Stx amounts (Some 1) None))
     else Throw (JsError "Request failed with status code 404")).

(** The results of two checkers: one funded EVM address, one empty, and a
    Bitcoin address whose lookup failed. *)
Definition sample_results : list (string * list (string * report.AddressData)) :=
  [ ("ethereum",
     [ ("0xA", {| report.hasActivity := true;
                  report.usdValue := Some 12.5%float;
                  report.error := None |});
       ("0xB", {| report.hasActivity := false;
                  report.usdValue := Some 0%float;
                  report.error := None |}) ]);
    ("bitcoin",
     [ ("bc1q", {| report.hasActivity := false;
                   report.usdValue := None;
                   report.error := Some "All Bitcoin APIs failed" |}) ]) ].

(** ** Vocabulary of the proofs *)

(** [m] is framed when the events it appends and its outcome do not
    depend on the world it starts in. *)
Definition framed {A} (m : M A) : Prop :=
  ∃ evs r, ∀ w, m w = (w ++ evs, r).

(** The pure reading of a computation: its outcome from the empty world. *)
Definition eval {A} (m : M A) : result A := outcome m [].

(** The [addresses] array and the [seen] set agree, and the array has no
    repetition. *)
Definition coherent (st : Collected) : Prop :=
  NoDup (addresses st) ∧ ∀ a, a ∈ seen st ↔ a ∈ addresses st.

(** One candidate handled: either nothing changed (skipped, or seen
    before) or the candidate went through [push_if_new]. *)
Definition collects (st st' : Collected) : Prop :=
  st' = st ∨ ∃ a, st' = push_if_new a st.

(** The two nested loops of a family, over the given indices. *)
Definition sweep {S} (paths : list PathFn) (body : Z -> PathFn -> S -> M S)
           (indices : list Z) (st : S) : M S :=
  for_of indices (fun i => for_of paths (body i)) st.


(** *** The family loops as list functions *)

(** [keep_first acc a]: [a] is appended unless it is there already. *)
Definition keep_first (acc : list string) (a : string) : list string :=
  if decide (a ∈ acc) then acc else acc ++ [a].

(** The first occurrence of every element, in the order of the list. *)
Definition first_occurrences (l : list string) : list string :=
  fold_left keep_first l [].

(** What one candidate comes to: an address, nothing (the candidate was
    skipped), or an exception that leaves the loop. *)
Definition Candidate : Type := result (option string).

(** The candidates of a family in the order the two loops visit them:
    index by index, and for each index template by template. *)
Definition candidates {C} (paths : list PathFn) (cand : Z -> PathFn -> C)
           (indices : list Z) : list C :=
  concat (map (fun i => map (cand i) paths) indices).

(** Runs through the candidates: addresses are kept on first occurrence,
    the first exception ends the run. *)
Fixpoint gather (cands : list Candidate) (acc : list string) : result (list string) :=
  match cands with
  | [] => Ok acc
  | Ok (Some a) :: rest => gather rest (keep_first acc a)
  | Ok None :: rest => gather rest acc
  | Throw e :: rest => Throw e
  end.

(** The state of the loop and the outcome of the list run agree. *)
Definition agrees (r : result Collected) (g : result (list string)) : Prop :=
  match r, g with
  | Ok st, Ok l => coherent st ∧ addresses st = l
  | Throw e, Throw e' => e = e'
  | _, _ => False
  end.

(** The paths a family tries for a count, in the order of the loops. *)
Definition tried_paths (paths : list PathFn) (count : Z) : list string :=
  candidates paths (fun i pathFn => pathFn i) (seqZ 0 count).

Section Readings.

Context {ethers : Ethers} {ed25519_hd_key : Ed25519HdKey}
        {solana_web3 : SolanaWeb3} {bitcoinjs : BitcoinJs}
        {sui_sdk : SuiSdk} {aptos_sdk : AptosSdk}.

(** What the body of each [try] comes to for a path: the address, or
    nothing when one of the package calls throws. *)
Definition solana_address (seed : Buffer) (path : string) : option string :=
  match derivePath path (Buffer_toString_hex seed) with
  | Ok derived =>
      match Keypair_fromSeed (key derived) with
      | Ok keypair =>
          match publicKey_toBase58 keypair with
          | Ok address => Some address
          | Throw _ => None
          end
      | Throw _ => None
      end
  | Throw _ => None
  end.

Definition sui_address (seed : Buffer) (path : string) : option string :=
  match derivePath path (Buffer_toString_hex seed) with
  | Ok derived =>
      match Ed25519Keypair_fromSecretKey (key derived) with
      | Ok keypair =>
          match toSuiAddress keypair with
          | Ok address => Some address
          | Throw _ => None
          end
      | Throw _ => None
      end
  | Throw _ => None
  end.

Definition aptos_address (seed : Buffer) (path : string) : option string :=
  match derivePath path (Buffer_toString_hex seed) with
  | Ok derived =>
      match Ed25519PrivateKey_new (key derived) with
      | Ok privateKey =>
          match authKey_toString privateKey with
          | Ok address => Some address
          | Throw _ => None
          end
      | Throw _ => None
      end
  | Throw _ => None
  end.

(** The payment the Bitcoin loop builds for a child key, by the text of
    the path. *)
Definition bitcoin_payment (child : BIP32) (path : string) : result Payment :=
  if includes path "m/84'" then payments_p2wpkh (bip32_publicKey child)
  else if includes path "m/49'" then
    match payments_p2wpkh (bip32_publicKey child) with
    | Ok redeem => payments_p2sh redeem
    | Throw e => Throw e
    end
  else payments_p2pkh (bip32_publicKey child).

Definition bitcoin_address (root : BIP32) (path : string) : option string :=
  match bip32_derivePath root path with
  | Ok child =>
      match bitcoin_payment child path with
      | Ok payment =>
          if truthy (payment_address payment) then payment_address payment else None
      | Throw _ => None
      end
  | Throw _ => None
  end.

(** The EVM loop has no [try]: an exception of [derivePath] stays one. *)
Definition evm_address (hdNode : HDNodeWallet) (path : string) : Candidate :=
  match HDNodeWallet_derivePath hdNode path with
  | Ok wallet => Ok (Some (wallet_address wallet))
  | Throw e => Throw e
  end.

(** An address comes out of the P2WPKH (native SegWit) payment of the child
    derived at [path]. *)
Definition segwit_address (root : BIP32) (path a : string) : Prop :=
  ∃ child payment,
    bip32_derivePath root path = Ok child
    ∧ payments_p2wpkh (bip32_publicKey child) = Ok payment
    ∧ payment_address payment = Some a.

(** An address comes out of the P2PKH (legacy) payment of the child derived
    at [path]. *)
Definition legacy_address (root : BIP32) (path a : string) : Prop :=
  ∃ child payment,
    bip32_derivePath root path = Ok child
    ∧ payments_p2pkh (bip32_publicKey child) = Ok payment
    ∧ payment_address payment = Some a.

End Readings.

(** [occurs c s]: the character [c] is somewhere in [s]. *)
Fixpoint occurs (c : ascii) (s : string) : bool :=
  match s with
  | EmptyString => false
  | String a s' => if decide (a = c) then true else occurs c s'
  end.

(** *** The console and the trace *)

(** The lines printed so far. *)
Definition console_lines (w : World) : list string :=
  omap (fun ev => match ev with
                  | console_log line => Some line
                  | lib_call _ _ _ => None
                  end) w.

(** The events a computation appends, read from the empty world. *)
Definition trace {A} (m : M A) : World := world_after m [].

(** [m] is framed and prints nothing. *)
Definition silent {A} (m : M A) : Prop :=
  framed m ∧ console_lines (trace m) = [].

(** The two lines [deriveAddresses] can print. *)
Definition banner_line : string :=
  "🔐 Deriving addresses (all derivations are LOCAL)..." +:+ String "010" "".
Definition stacks_warning_line : string :=
  "  ⚠️  Stacks derivation: Using simplified implementation".

(** *** The retry loops *)

(** The event a wait leaves in the world. *)
Definition waited (ms : Z) : Event :=
  lib_call "timers" "setTimeout" (number_toString ms).

(** One iteration of either retry loop: [wait error] is the pause the loop
    makes before the next attempt, or [None] when [error] is rethrown. *)
Definition attempt {A} (fn : M A) (wait : Z -> exn -> option Z) (i : Z)
  : M (Control A) :=
  try_catch
    (let! a := fn in ret (Return a))
    (fun error =>
       match wait i error with
       | None => throw error
       | Some ms => do! sleep ms in ret Continue
       end).

(** A request that fails the same way whatever happened before. *)
Definition always_fails {A} (fn : M A) (e : exn) : Prop :=
  framed fn ∧ eval fn = Throw e.

(** The pause of the Bitcoin checker's loop before the next attempt. *)
Definition bitcoin_wait (maxRetries i : Z) (error : exn) : option Z :=
  if decide (i = maxRetries - 1) then None else Some (2000 * (i + 1)).

(** The pause of the EVM checker's loop before the next attempt. *)
Definition evm_wait {error_fields : ErrorFields} (maxRetries delay i : Z) (error : exn)
  : option Z :=
  if decide (i = maxRetries - 1) then None
  else if evm_checker.not_retried error then None
  else Some delay.

(** The line [getBTCBalance] writes before it turns to Mempool. *)
Definition blockstream_failed : Event :=
  lib_call "console" "error"
    "    ⚠️  Blockstream API failed, trying Mempool.space...".

(** The address the Stacks checker asks for the balances of an account. *)
Definition balances_url (address : string) : string :=
  stacks_checker.STACKS_API +:+ "/extended/v1/address/" +:+ address +:+ "/balances".

(** *** The summary *)

(** The entries of a chain that show activity. *)
Definition active (addresses : list (string * report.AddressData))
  : list (string * report.AddressData) :=
  filter (fun entry => report.hasActivity entry.2 = true) addresses.

(** The error records a chain contributes. *)
Definition reported (chain : string) (addresses : list (string * report.AddressData))
  : list report.ErrorEntry :=
  omap (fun entry =>
          match report.error entry.2 with
          | Some msg => if truthy (Some msg)
                        then Some {| report.entry_chain := chain;
                                     report.entry_address := entry.1;
                                     report.entry_error := msg |}
                        else None
          | None => None
          end) addresses.

(** The chains with at least one active entry. *)
Definition funded (results : list (string * list (string * report.AddressData)))
  : list (string * list (string * report.AddressData)) :=
  filter (fun entry => active entry.2 ≠ []) results.

(** The entries of all chains. *)
Definition all_addresses (results : list (string * list (string * report.AddressData)))
  : list (string * report.AddressData) :=
  concat (results.*2).

(** ** Reasoning about [M]: every computation only appends to the world *)

Section Frames.

Lemma framed_ret {A} (a : A) : framed (ret a).
Proof. exists [], (Ok a). intros w. unfold ret. by rewrite app_nil_r. Qed.

Lemma framed_throw {A} e : framed (@throw A e).
Proof. exists [], (Throw e). intros w. unfold throw. by rewrite app_nil_r. Qed.

Lemma framed_log line : framed (log line).
Proof. by exists [console_log line], (Ok tt). Qed.

Lemma framed_call {A} p f a (r : result A) : framed (call p f a r).
Proof. by exists [lib_call p f a], r. Qed.

Lemma framed_bind {A B} (m : M A) (k : A -> M B) :
  framed m -> (∀ a, framed (k a)) -> framed (bind m k).
Proof.
  intros (evs & r & Hm) Hk. destruct r as [a|e].
  - destruct (Hk a) as (evs' & r' & Hka).
    exists (evs ++ evs'), r'. intros w. unfold bind.
    by rewrite Hm, Hka, app_assoc.
  - exists evs, (Throw e). intros w. unfold bind. by rewrite Hm.
Qed.

Lemma framed_try_catch {A} (m : M A) (h : exn -> M A) :
  framed m -> (∀ e, framed (h e)) -> framed (try_catch m h).
Proof.
  intros (evs & r & Hm) Hh. destruct r as [a|e].
  - exists evs, (Ok a). intros w. unfold try_catch. by rewrite Hm.
  - destruct (Hh e) as (evs' & r' & Hhe).
    exists (evs ++ evs'), r'. intros w. unfold try_catch.
    by rewrite Hm, Hhe, app_assoc.
Qed.

Lemma framed_for_of {X S} (xs : list X) (body : X -> S -> M S) :
  (∀ x s, framed (body x s)) -> ∀ s, framed (for_of xs body s).
Proof.
  intros Hbody. induction xs as [|x xs IH]; intros s; simpl.
  - apply framed_ret.
  - apply framed_bind; auto.
Qed.

Lemma framed_for_range {S} count (body : Z -> S -> M S) :
  (∀ i s, framed (body i s)) -> ∀ s, framed (for_range count body s).
Proof. intros. by apply framed_for_of. Qed.

(** The outcome of a framed computation is the same in every world. *)
Lemma framed_outcome {A} (m : M A) w1 w2 :
  framed m -> outcome m w1 = outcome m w2.
Proof. intros (evs & r & Hm). unfold outcome. by rewrite !Hm. Qed.

Lemma framed_run {A} (m : M A) w :
  framed m -> m w = (w ++ world_after m [], outcome m []).
Proof.
  intros (evs & r & Hm). unfold outcome, world_after. by rewrite !Hm.
Qed.

End Frames.

Create HintDb framed discriminated.
#[export] Hint Resolve framed_ret framed_throw framed_log framed_call : framed.

(** Decomposes a framedness goal along the structure of the program. *)
Ltac framed_step :=
  match goal with
  | |- framed (bind _ _) => apply framed_bind; [| intros ?]
  | |- framed (try_catch _ _) => apply framed_try_catch; [| intros ?]
  | |- framed (for_range _ _ _) => apply framed_for_range; intros ? ?
  | |- framed (for_of _ _ _) => apply framed_for_of; intros ? ?
  | |- framed (let _ := _ in _) => cbv zeta
  | |- framed (if ?b then _ else _) => destruct b
  | |- framed (match ?x with _ => _ end) => destruct x
  | |- framed _ => solve [auto with framed]
  end.
Ltac solve_framed := repeat framed_step.

Section Eval.

Lemma outcome_eval {A} (m : M A) w : framed m -> outcome m w = eval m.
Proof. intros. by apply framed_outcome. Qed.

Lemma eval_ret {A} (a : A) : eval (ret a) = Ok a.
Proof. done. Qed.

Lemma eval_throw {A} e : eval (@throw A e) = Throw e.
Proof. done. Qed.

Lemma eval_call {A} p f a (r : result A) : eval (call p f a r) = r.
Proof. done. Qed.

Lemma eval_log line : eval (log line) = Ok tt.
Proof. done. Qed.

Lemma eval_bind {A B} (m : M A) (k : A -> M B) :
  (∀ a, framed (k a)) ->
  eval (bind m k) = match eval m with
                    | Ok a => eval (k a)
                    | Throw e => Throw e
                    end.
Proof.
  intros Hk. unfold eval, outcome, bind.
  destruct (m []) as [w' [a|e]]; simpl; [|done].
  apply (framed_outcome (k a)), Hk.
Qed.

Lemma eval_try_catch {A} (m : M A) (h : exn -> M A) :
  (∀ e, framed (h e)) ->
  eval (try_catch m h) = match eval m with
                         | Ok a => Ok a
                         | Throw e => eval (h e)
                         end.
Proof.
  intros Hh. unfold eval, outcome, try_catch.
  destruct (m []) as [w' [a|e]]; simpl; [done|].
  apply (framed_outcome (h e)), Hh.
Qed.

Lemma eval_for_of_cons {X S} x (xs : list X) (body : X -> S -> M S) s :
  (∀ x s, framed (body x s)) ->
  eval (for_of (x :: xs) body s)
  = match eval (body x s) with
    | Ok s' => eval (for_of xs body s')
    | Throw e => Throw e
    end.
Proof. intros Hb. simpl. apply eval_bind. intros. by apply framed_for_of. Qed.

Lemma eval_for_of_app {X S} (xs ys : list X) (body : X -> S -> M S) s :
  (∀ x s, framed (body x s)) ->
  eval (for_of (xs ++ ys) body s)
  = match eval (for_of xs body s) with
    | Ok s' => eval (for_of ys body s')
    | Throw e => Throw e
    end.
Proof.
  intros Hb. revert s. induction xs as [|x xs IH]; intros s.
  - done.
  - rewrite <- app_comm_cons, !eval_for_of_cons by done.
    destruct (eval (body x s)); [apply IH | done].
Qed.

(** A loop whose body preserves [I] whenever it returns establishes [I]
    when the loop returns. *)
Lemma eval_for_of_invariant {X S} (I : S -> Prop) (xs : list X)
      (body : X -> S -> M S) :
  (∀ x s, framed (body x s)) ->
  (∀ x s s', I s -> eval (body x s) = Ok s' -> I s') ->
  ∀ s s', I s -> eval (for_of xs body s) = Ok s' -> I s'.
Proof.
  intros Hf Hstep. induction xs as [|x xs IH]; intros s s' Hs.
  - cbn [for_of]. rewrite eval_ret. by intros [= <-].
  - rewrite eval_for_of_cons by done.
    destruct (eval (body x s)) as [s1|e] eqn:Hx; [|done].
    eapply IH, Hstep; eauto.
Qed.


End Eval.

(** Rewrites [eval] through the sequencing constructs of a program. *)
Ltac eval_step :=
  first [ rewrite eval_ret | rewrite eval_throw | rewrite eval_call
        | rewrite eval_log
        | rewrite eval_bind by (intros; solve_framed)
        | rewrite eval_try_catch by (intros; solve_framed) ].
Ltac eval_steps := repeat eval_step.

(** ** The collecting loops *)

Lemma coherent_nothing : coherent nothing_collected.
Proof. split; [constructor | set_solver]. Qed.

Lemma push_if_new_coherent a st : coherent st -> coherent (push_if_new a st).
Proof.
  intros [Hnd Hseen]. unfold push_if_new. case_decide as Hin; [done|].
  split; simpl.
  - apply NoDup_app. split_and!; [done| |apply NoDup_singleton].
    intros x Hx ->%list_elem_of_singleton. apply Hin, Hseen, Hx.
  - intros x. rewrite elem_of_union, elem_of_singleton, elem_of_app,
      list_elem_of_singleton, Hseen. done.
Qed.

Lemma push_if_new_prefix a st : addresses st `prefix_of` addresses (push_if_new a st).
Proof.
  unfold push_if_new. case_decide; [done|]. simpl. by apply prefix_app_r.
Qed.

Lemma push_if_new_present a st :
  coherent st -> a ∈ addresses (push_if_new a st).
Proof.
  intros [_ Hseen]. unfold push_if_new.
  destruct (decide (a ∈ seen st)) as [Hin|Hin].
  - exact (proj1 (Hseen a) Hin).
  - simpl. apply elem_of_app. right. by apply list_elem_of_singleton.
Qed.

Lemma collects_coherent st st' : collects st st' -> coherent st -> coherent st'.
Proof. intros [-> | [a ->]]; auto using push_if_new_coherent. Qed.

Lemma collects_prefix st st' : collects st st' -> addresses st `prefix_of` addresses st'.
Proof. intros [-> | [a ->]]; auto using push_if_new_prefix. Qed.

Section Collector.

Context {S : Type} (paths : list PathFn) (body : Z -> PathFn -> S -> M S).

Hypothesis body_framed : ∀ i p st, framed (body i p st).

Lemma sweep_body_framed i st : framed (for_of paths (body i) st).
Proof. by apply framed_for_of. Qed.

Lemma sweep_framed indices st : framed (sweep paths body indices st).
Proof. apply framed_for_of. intros. apply sweep_body_framed. Qed.


(** Counting to [n2] passes through the state reached by counting to
    [n1]. *)
Lemma for_range_split (n1 n2 : Z) st :
  n1 ≤ n2 ->
  eval (for_range n2 (fun i => for_of paths (body i)) st)
  = match eval (for_range n1 (fun i => for_of paths (body i)) st) with
    | Ok st1 => eval (sweep paths body (seqZ (Z.max 0 n1) (n2 - Z.max 0 n1)) st1)
    | Throw e => Throw e
    end.
Proof.
  intros Hle. unfold for_range.
  destruct (decide (n1 ≤ 0)) as [Hn|Hn].
  - rewrite (seqZ_nil 0 n1) by done. cbn [for_of]. rewrite eval_ret.
    by replace (Z.max 0 n1) with 0 by lia; rewrite Z.sub_0_r.
  - replace (Z.max 0 n1) with n1 by lia.
    replace n2 with (n1 + (n2 - n1)) at 1 by lia.
    rewrite seqZ_app by lia.
    apply eval_for_of_app. intros. apply sweep_body_framed.
Qed.

(** An index at which the inner loop throws, whatever it has collected,
    makes the whole sweep throw. *)
Lemma sweep_throws indices i :
  i ∈ indices ->
  (∀ st, ∃ e, eval (for_of paths (body i) st) = Throw e) ->
  ∀ st, ∃ e, eval (sweep paths body indices st) = Throw e.
Proof.
  intros Hi Hthrow. induction indices as [|x indices IH]; intros st.
  - by apply elem_of_nil in Hi.
  - unfold sweep. rewrite eval_for_of_cons by (intros; apply sweep_body_framed).
    destruct (eval (for_of paths (body x) st)) as [st1|e] eqn:Hx; [|by eauto].
    apply elem_of_cons in Hi as [->|Hi].
    + destruct (Hthrow st) as [e He]. congruence.
    + by apply IH.
Qed.

Section Invariant.

Context (good : S -> Prop).
Hypothesis body_good :
  ∀ i p st st', good st -> eval (body i p st) = Ok st' -> good st'.

Lemma sweep_good indices st st' :
  good st -> eval (sweep paths body indices st) = Ok st' -> good st'.
Proof.
  apply (eval_for_of_invariant good); [intros; apply sweep_body_framed|].
  intros i s s'. apply (eval_for_of_invariant good); eauto.
Qed.

End Invariant.

Section Growth.

Context (out : S -> list string).
Hypothesis body_grows :
  ∀ i p st st', eval (body i p st) = Ok st' -> out st `prefix_of` out st'.

Lemma sweep_grows indices st st' :
  eval (sweep paths body indices st) = Ok st' -> out st `prefix_of` out st'.
Proof.
  apply (sweep_good (fun s => out st `prefix_of` out s)); [|done].
  intros i p s1 s2 Hs1 Hb. etrans; [exact Hs1|]. eauto.
Qed.

Lemma for_range_monotone (n1 n2 : Z) st st2 :
  n1 ≤ n2 ->
  eval (for_range n2 (fun i => for_of paths (body i)) st) = Ok st2 ->
  ∃ st1, eval (for_range n1 (fun i => for_of paths (body i)) st) = Ok st1
         ∧ out st1 `prefix_of` out st2.
Proof.
  intros Hle. rewrite (for_range_split n1 n2) by done.
  destruct (eval (for_range n1 _ st)) as [st1|e]; [|done].
  intros Hrest. exists st1. split; [done|]. by eapply sweep_grows.
Qed.

End Growth.

End Collector.

(** The shape shared by the six family functions: an optional root
    construction (outside any [try]), then the two nested loops over indices
    and path templates, then the collected array is returned. *)
Section Family.

Context {R S : Type} (f : Z -> M (list string)) (root : result R).
Context (out : S -> list string) (init : S).
Context (paths : list PathFn) (body : R -> Z -> PathFn -> S -> M S).

Hypothesis body_framed : ∀ r i p st, framed (body r i p st).
Hypothesis f_eval : ∀ count,
  eval (f count)
  = match root with
    | Ok r =>
        match eval (for_range count (fun i => for_of paths (body r i)) init) with
        | Ok st => Ok (out st)
        | Throw e => Throw e
        end
    | Throw e => Throw e
    end.

Lemma family_inv count l :
  eval (f count) = Ok l ->
  ∃ r st, root = Ok r ∧ l = out st
          ∧ eval (for_range count (fun i => for_of paths (body r i)) init) = Ok st.
Proof.
  rewrite f_eval. destruct root as [r|e]; [|done].
  destruct (eval (for_range _ _ _)) as [st|e] eqn:Hst; [|done].
  intros [= <-]. eauto.
Qed.

Lemma family_good (good : S -> Prop) count l :
  (∀ r i p st st', good st -> eval (body r i p st) = Ok st' -> good st') ->
  good init -> eval (f count) = Ok l -> ∃ st, good st ∧ l = out st.
Proof.
  intros Hgood Hinit (r & st & _ & -> & Hst)%family_inv.
  exists st. split; [|done].
  eapply (sweep_good paths (body r)); eauto.
Qed.

Lemma family_monotone n1 n2 l2 :
  (∀ r i p st st', eval (body r i p st) = Ok st' -> out st `prefix_of` out st') ->
  n1 ≤ n2 -> eval (f n2) = Ok l2 ->
  ∃ l1, eval (f n1) = Ok l1 ∧ l1 `prefix_of` l2.
Proof.
  intros Hgrows Hle (r & st2 & Hroot & -> & Hst2)%family_inv.
  apply (for_range_monotone paths (body r) (body_framed r) out) with (n1 := n1)
    in Hst2 as (st1 & Hst1 & Hpre); [|eauto|done].
  exists (out st1). split; [|done]. by rewrite f_eval, Hroot, Hst1.
Qed.


Lemma family_empty count r :
  root = Ok r -> count ≤ 0 -> eval (f count) = Ok (out init).
Proof.
  intros Hroot Hle. rewrite f_eval, Hroot. unfold for_range.
  by rewrite seqZ_nil.
Qed.

Lemma family_throws count r i :
  root = Ok r -> 0 ≤ i < count ->
  (∀ st, ∃ e, eval (for_of paths (body r i) st) = Throw e) ->
  ∃ e, eval (f count) = Throw e.
Proof.
  intros Hroot Hi Hthrow. rewrite f_eval, Hroot.
  destruct (sweep_throws paths (body r) (body_framed r) (seqZ 0 count) i)
    with (st := init) as [e He]; [apply elem_of_seqZ; lia|done|].
  exists e. unfold for_range. unfold sweep in He. by rewrite He.
Qed.

End Family.

(** A family that collects through [push_if_new]. *)
Section CollectingFamily.

Context {R : Type} (f : Z -> M (list string)) (root : result R).
Context (paths : list PathFn) (body : R -> Z -> PathFn -> Collected -> M Collected).

Hypothesis body_framed : ∀ r i p st, framed (body r i p st).
Hypothesis body_collects :
  ∀ r i p st st', eval (body r i p st) = Ok st' -> collects st st'.
Hypothesis f_eval : ∀ count,
  eval (f count)
  = match root with
    | Ok r =>
        match eval (for_range count (fun i => for_of paths (body r i))
                      nothing_collected) with
        | Ok st => Ok (addresses st)
        | Throw e => Throw e
        end
    | Throw e => Throw e
    end.

Lemma collecting_NoDup count l : eval (f count) = Ok l -> NoDup l.
Proof.
  intros Hl.
  destruct (family_good f root addresses nothing_collected paths body
              body_framed f_eval coherent count l) as (st & [Hnd _] & ->);
    eauto using collects_coherent, coherent_nothing.
Qed.

Lemma collecting_monotone n1 n2 l2 :
  n1 ≤ n2 -> eval (f n2) = Ok l2 ->
  ∃ l1, eval (f n1) = Ok l1 ∧ l1 `prefix_of` l2.
Proof.
  apply (family_monotone f root addresses nothing_collected paths body
           body_framed f_eval).
  eauto using collects_prefix.
Qed.

End CollectingFamily.

(** ** The six families *)

Section Families.

Context {bip39 : Bip39} {ethers : Ethers} {ed25519_hd_key : Ed25519HdKey}
        {solana_web3 : SolanaWeb3} {bitcoinjs : BitcoinJs}
        {sui_sdk : SuiSdk} {aptos_sdk : AptosSdk}.

(** *** Every function is framed *)

Lemma evm_candidate_framed h i p st : framed (evm_candidate h i p st).
Proof. unfold evm_candidate. solve_framed. Qed.
Lemma solana_candidate_framed seed u i p st : framed (solana_candidate seed u i p st).
Proof. unfold solana_candidate. solve_framed. Qed.
Lemma bitcoin_candidate_framed r i p st : framed (bitcoin_candidate r i p st).
Proof. unfold bitcoin_candidate. solve_framed. Qed.
Lemma stacks_candidate_framed h i p st : framed (stacks_candidate h i p st).
Proof. unfold stacks_candidate. solve_framed. Qed.
Lemma sui_candidate_framed seed u i p st : framed (sui_candidate seed u i p st).
Proof. unfold sui_candidate. solve_framed. Qed.
Lemma aptos_candidate_framed seed u i p st : framed (aptos_candidate seed u i p st).
Proof. unfold aptos_candidate. solve_framed. Qed.

Lemma deriveEVMAddresses_framed seed count : framed (deriveEVMAddresses seed count).
Proof. unfold deriveEVMAddresses. solve_framed. Qed.
Lemma deriveSolanaAddresses_framed seed count : framed (deriveSolanaAddresses seed count).
Proof. unfold deriveSolanaAddresses. solve_framed. Qed.
Lemma deriveBitcoinAddresses_framed seed count : framed (deriveBitcoinAddresses seed count).
Proof. unfold deriveBitcoinAddresses. solve_framed. Qed.
Lemma deriveStacksAddresses_framed seed count : framed (deriveStacksAddresses seed count).
Proof. unfold deriveStacksAddresses. solve_framed. Qed.
Lemma deriveSuiAddresses_framed seed count : framed (deriveSuiAddresses seed count).
Proof. unfold deriveSuiAddresses. solve_framed. Qed.
Lemma deriveAptosAddresses_framed seed count : framed (deriveAptosAddresses seed count).
Proof. unfold deriveAptosAddresses. solve_framed. Qed.

Lemma deriveAddresses_framed seedPhrase count : framed (deriveAddresses seedPhrase count).
Proof.
  unfold deriveAddresses. cbv zeta.
  apply framed_bind; [auto with framed|]. intros valid.
  destruct (negb valid); [auto with framed|].
  repeat (apply framed_bind;
          [first [ apply deriveEVMAddresses_framed
                 | apply deriveSolanaAddresses_framed
                 | apply deriveBitcoinAddresses_framed
                 | apply deriveStacksAddresses_framed
                 | apply deriveSuiAddresses_framed
                 | apply deriveAptosAddresses_framed
                 | auto with framed ] | intros ?]).
  auto with framed.
Qed.

Lemma derivePrivateKey_framed seedPhrase chain index :
  framed (derivePrivateKey seedPhrase chain index).
Proof.
  unfold derivePrivateKey, apply_value. cbv zeta.
  apply framed_bind; [auto with framed|]. intros seed.
  solve_framed.
Qed.

(** *** The shape of each family function *)

Lemma deriveEVMAddresses_eval seed count :
  eval (deriveEVMAddresses seed count)
  = match HDNodeWallet_fromSeed seed with
    | Ok hdNode =>
        match eval (for_range count
                      (fun i => for_of DERIVATION_PATHS_evm (evm_candidate hdNode i))
                      nothing_collected) with
        | Ok st => Ok (addresses st)
        | Throw e => Throw e
        end
    | Throw e => Throw e
    end.
Proof.
  unfold deriveEVMAddresses. eval_steps.
  destruct (HDNodeWallet_fromSeed seed); [|done]. by eval_steps.
Qed.

Lemma deriveSolanaAddresses_eval seed count :
  eval (deriveSolanaAddresses seed count)
  = match Ok tt with
    | Ok u =>
        match eval (for_range count
                      (fun i => for_of DERIVATION_PATHS_solana (solana_candidate seed u i))
                      nothing_collected) with
        | Ok st => Ok (addresses st)
        | Throw e => Throw e
        end
    | Throw e => Throw e
    end.
Proof. unfold deriveSolanaAddresses. by eval_steps. Qed.

Lemma deriveBitcoinAddresses_eval seed count :
  eval (deriveBitcoinAddresses seed count)
  = match bip32_fromSeed seed with
    | Ok root =>
        match eval (for_range count
                      (fun i => for_of DERIVATION_PATHS_bitcoin (bitcoin_candidate root i))
                      nothing_collected) with
        | Ok st => Ok (addresses st)
        | Throw e => Throw e
        end
    | Throw e => Throw e
    end.
Proof.
  unfold deriveBitcoinAddresses. eval_steps.
  destruct (bip32_fromSeed seed); [|done]. by eval_steps.
Qed.

Lemma deriveStacksAddresses_eval seed count :
  eval (deriveStacksAddresses seed count)
  = match HDNodeWallet_fromSeed seed with
    | Ok hdNode =>
        match eval (for_range count
                      (fun i => for_of DERIVATION_PATHS_stacks (stacks_candidate hdNode i))
                      []) with
        | Ok st => Ok (id st)
        | Throw e => Throw e
        end
    | Throw e => Throw e
    end.
Proof.
  unfold deriveStacksAddresses. eval_steps.
  destruct (HDNodeWallet_fromSeed seed) as [hdNode|]; [|done]. eval_steps.
  change (fun i => for_of DERIVATION_PATHS_stacks _)
    with (fun i => for_of DERIVATION_PATHS_stacks (stacks_candidate hdNode i)).
  destruct (eval (for_range count _ _)); [|done]. by eval_steps.
Qed.

Lemma deriveSuiAddresses_eval seed count :
  eval (deriveSuiAddresses seed count)
  = match Ok tt with
    | Ok u =>
        match eval (for_range count
                      (fun i => for_of DERIVATION_PATHS_sui (sui_candidate seed u i))
                      nothing_collected) with
        | Ok st => Ok (addresses st)
        | Throw e => Throw e
        end
    | Throw e => Throw e
    end.
Proof. unfold deriveSuiAddresses. by eval_steps. Qed.

Lemma deriveAptosAddresses_eval seed count :
  eval (deriveAptosAddresses seed count)
  = match Ok tt with
    | Ok u =>
        match eval (for_range count
                      (fun i => for_of DERIVATION_PATHS_aptos (aptos_candidate seed u i))
                      nothing_collected) with
        | Ok st => Ok (addresses st)
        | Throw e => Throw e
        end
    | Throw e => Throw e
    end.
Proof. unfold deriveAptosAddresses. by eval_steps. Qed.

(** *** What one candidate does *)

Lemma evm_candidate_eval h i p st :
  eval (evm_candidate h i p st)
  = match HDNodeWallet_derivePath h (p i) with
    | Ok wallet => Ok (push_if_new (wallet_address wallet) st)
    | Throw e => Throw e
    end.
Proof. unfold evm_candidate. cbv zeta. eval_steps. by destruct HDNodeWallet_derivePath. Qed.

Lemma stacks_candidate_eval h i p l :
  eval (stacks_candidate h i p l)
  = match HDNodeWallet_derivePath h (p i) with
    | Ok wallet => Ok (l ++ ["SP" +:+ slice (wallet_address wallet) 2 42])
    | Throw e => Throw e
    end.
Proof. unfold stacks_candidate. cbv zeta. eval_steps. by destruct HDNodeWallet_derivePath. Qed.


Lemma guarded_collects (m : M Collected) st st' :
  (∀ s, eval m = Ok s -> collects st s) ->
  eval (try_catch m (fun error => ret st)) = Ok st' -> collects st st'.
Proof.
  intros Hm. rewrite eval_try_catch by auto with framed.
  destruct (eval m) as [s|e]; [intros [= <-]; auto|].
  rewrite eval_ret. intros [= <-]. by left.
Qed.

(** Case analysis on the package results a candidate depends on. *)
Ltac candidate_cases :=
  repeat (eval_steps;
          match goal with
          | |- context [match ?r with Ok _ => _ | Throw _ => _ end] =>
              lazymatch r with
              | context [@eval] => fail
              | _ => destruct r
              end
          | |- context [if ?b then _ else _] => destruct b
          | |- context [match ?o with Some _ => _ | None => _ end] => destruct o
          end);
  eval_steps.

Lemma evm_candidate_collects h i p st st' :
  eval (evm_candidate h i p st) = Ok st' -> collects st st'.
Proof.
  rewrite evm_candidate_eval. destruct HDNodeWallet_derivePath; [|done].
  intros [= <-]. right. eauto.
Qed.

Lemma solana_candidate_collects seed u i p st st' :
  eval (solana_candidate seed u i p st) = Ok st' -> collects st st'.
Proof.
  apply guarded_collects. intros s. cbv zeta. candidate_cases;
    intros [= <-]; (by left) || (right; eauto).
Qed.

Lemma bitcoin_candidate_collects r i p st st' :
  eval (bitcoin_candidate r i p st) = Ok st' -> collects st st'.
Proof.
  apply guarded_collects. intros s. cbv zeta. candidate_cases;
    intros [= <-]; (by left) || (right; eauto).
Qed.

Lemma sui_candidate_collects seed u i p st st' :
  eval (sui_candidate seed u i p st) = Ok st' -> collects st st'.
Proof.
  apply guarded_collects. intros s. cbv zeta. candidate_cases;
    intros [= <-]; (by left) || (right; eauto).
Qed.

Lemma aptos_candidate_collects seed u i p st st' :
  eval (aptos_candidate seed u i p st) = Ok st' -> collects st st'.
Proof.
  apply guarded_collects. intros s. cbv zeta. candidate_cases;
    intros [= <-]; (by left) || (right; eauto).
Qed.

(** *** Results per family *)

Lemma deriveEVMAddresses_NoDup seed count l :
  eval (deriveEVMAddresses seed count) = Ok l -> NoDup l.
Proof.
  apply (collecting_NoDup _ (HDNodeWallet_fromSeed seed) _ (evm_candidate) (evm_candidate_framed)
           (evm_candidate_collects) (deriveEVMAddresses_eval seed)).
Qed.

Lemma deriveSolanaAddresses_NoDup seed count l :
  eval (deriveSolanaAddresses seed count) = Ok l -> NoDup l.
Proof.
  apply (collecting_NoDup _ (Ok tt) _ (solana_candidate seed) (solana_candidate_framed seed)
           (solana_candidate_collects seed) (deriveSolanaAddresses_eval seed)).
Qed.

Lemma deriveBitcoinAddresses_NoDup seed count l :
  eval (deriveBitcoinAddresses seed count) = Ok l -> NoDup l.
Proof.
  apply (collecting_NoDup _ (bip32_fromSeed seed) _ (bitcoin_candidate) (bitcoin_candidate_framed)
           (bitcoin_candidate_collects) (deriveBitcoinAddresses_eval seed)).
Qed.

Lemma deriveSuiAddresses_NoDup seed count l :
  eval (deriveSuiAddresses seed count) = Ok l -> NoDup l.
Proof.
  apply (collecting_NoDup _ (Ok tt) _ (sui_candidate seed) (sui_candidate_framed seed)
           (sui_candidate_collects seed) (deriveSuiAddresses_eval seed)).
Qed.

Lemma deriveAptosAddresses_NoDup seed count l :
  eval (deriveAptosAddresses seed count) = Ok l -> NoDup l.
Proof.
  apply (collecting_NoDup _ (Ok tt) _ (aptos_candidate seed) (aptos_candidate_framed seed)
           (aptos_candidate_collects seed) (deriveAptosAddresses_eval seed)).
Qed.

Lemma deriveEVMAddresses_monotone seed n1 n2 l2 :
  n1 ≤ n2 -> eval (deriveEVMAddresses seed n2) = Ok l2 ->
  ∃ l1, eval (deriveEVMAddresses seed n1) = Ok l1 ∧ l1 `prefix_of` l2.
Proof.
  apply (collecting_monotone _ (HDNodeWallet_fromSeed seed) _ (evm_candidate) (evm_candidate_framed)
           (evm_candidate_collects) (deriveEVMAddresses_eval seed)).
Qed.

Lemma deriveSolanaAddresses_monotone seed n1 n2 l2 :
  n1 ≤ n2 -> eval (deriveSolanaAddresses seed n2) = Ok l2 ->
  ∃ l1, eval (deriveSolanaAddresses seed n1) = Ok l1 ∧ l1 `prefix_of` l2.
Proof.
  apply (collecting_monotone _ (Ok tt) _ (solana_candidate seed) (solana_candidate_framed seed)
           (solana_candidate_collects seed) (deriveSolanaAddresses_eval seed)).
Qed.

Lemma deriveBitcoinAddresses_monotone seed n1 n2 l2 :
  n1 ≤ n2 -> eval (deriveBitcoinAddresses seed n2) = Ok l2 ->
  ∃ l1, eval (deriveBitcoinAddresses seed n1) = Ok l1 ∧ l1 `prefix_of` l2.
Proof.
  apply (collecting_monotone _ (bip32_fromSeed seed) _ (bitcoin_candidate) (bitcoin_candidate_framed)
           (bitcoin_candidate_collects) (deriveBitcoinAddresses_eval seed)).
Qed.

Lemma deriveStacksAddresses_monotone seed n1 n2 l2 :
  n1 ≤ n2 -> eval (deriveStacksAddresses seed n2) = Ok l2 ->
  ∃ l1, eval (deriveStacksAddresses seed n1) = Ok l1 ∧ l1 `prefix_of` l2.
Proof.
  apply (family_monotone _ _ id [] _ _ stacks_candidate_framed
           (deriveStacksAddresses_eval seed)).
  intros h i p l l'. rewrite stacks_candidate_eval.
  destruct HDNodeWallet_derivePath; [|done].
  intros [= <-]. by apply prefix_app_r.
Qed.

Lemma deriveSuiAddresses_monotone seed n1 n2 l2 :
  n1 ≤ n2 -> eval (deriveSuiAddresses seed n2) = Ok l2 ->
  ∃ l1, eval (deriveSuiAddresses seed n1) = Ok l1 ∧ l1 `prefix_of` l2.
Proof.
  apply (collecting_monotone _ (Ok tt) _ (sui_candidate seed) (sui_candidate_framed seed)
           (sui_candidate_collects seed) (deriveSuiAddresses_eval seed)).
Qed.

Lemma deriveAptosAddresses_monotone seed n1 n2 l2 :
  n1 ≤ n2 -> eval (deriveAptosAddresses seed n2) = Ok l2 ->
  ∃ l1, eval (deriveAptosAddresses seed n1) = Ok l1 ∧ l1 `prefix_of` l2.
Proof.
  apply (collecting_monotone _ (Ok tt) _ (aptos_candidate seed) (aptos_candidate_framed seed)
           (aptos_candidate_collects seed) (deriveAptosAddresses_eval seed)).
Qed.





(** *** The two families without [try]: EVM and Stacks *)

Lemma evm_inner_eval h i st :
  eval (for_of DERIVATION_PATHS_evm (evm_candidate h i) st)
  = match HDNodeWallet_derivePath h (evm_path i) with
    | Ok wallet => Ok (push_if_new (wallet_address wallet) st)
    | Throw e => Throw e
    end.
Proof.
  unfold DERIVATION_PATHS_evm. rewrite eval_for_of_cons
    by (intros; apply evm_candidate_framed).
  rewrite evm_candidate_eval. fold (evm_path i).
  by destruct HDNodeWallet_derivePath.
Qed.

Lemma stacks_inner_eval h i l :
  eval (for_of DERIVATION_PATHS_stacks (stacks_candidate h i) l)
  = match HDNodeWallet_derivePath h (stacks_path i) with
    | Ok wallet => Ok (l ++ ["SP" +:+ slice (wallet_address wallet) 2 42])
    | Throw e => Throw e
    end.
Proof.
  unfold DERIVATION_PATHS_stacks. rewrite eval_for_of_cons
    by (intros; apply stacks_candidate_framed).
  rewrite stacks_candidate_eval. fold (stacks_path i).
  by destruct HDNodeWallet_derivePath.
Qed.



(** One failing derivation inside the EVM or Stacks loop ends the whole
    family function with an exception. *)
Lemma deriveEVMAddresses_throws seed count h i e :
  HDNodeWallet_fromSeed seed = Ok h -> 0 ≤ i < count ->
  HDNodeWallet_derivePath h (evm_path i) = Throw e ->
  ∃ e', eval (deriveEVMAddresses seed count) = Throw e'.
Proof.
  intros Hroot Hi Hthrow.
  eapply (family_throws _ _ _ _ _ _ evm_candidate_framed
            (deriveEVMAddresses_eval seed)); [done..|].
  intros st. rewrite evm_inner_eval, Hthrow. eauto.
Qed.

Lemma deriveStacksAddresses_throws seed count h i e :
  HDNodeWallet_fromSeed seed = Ok h -> 0 ≤ i < count ->
  HDNodeWallet_derivePath h (stacks_path i) = Throw e ->
  ∃ e', eval (deriveStacksAddresses seed count) = Throw e'.
Proof.
  intros Hroot Hi Hthrow.
  eapply (family_throws _ _ _ _ _ _ stacks_candidate_framed
            (deriveStacksAddresses_eval seed)); [done..|].
  intros st. rewrite stacks_inner_eval, Hthrow. eauto.
Qed.

Lemma stacks_sweep_spec h indices acc l :
  eval (for_of indices (fun i => for_of DERIVATION_PATHS_stacks (stacks_candidate h i)) acc)
  = Ok l ->
  ∃ l', l = acc ++ l' ∧ Forall2 (stacks_entry h) indices l'.
Proof.
  revert acc. induction indices as [|i indices IH]; intros acc.
  - cbn [for_of]. rewrite eval_ret. intros [= <-].
    exists []. by rewrite app_nil_r.
  - rewrite eval_for_of_cons
      by (intros; apply framed_for_of; intros; apply stacks_candidate_framed).
    rewrite stacks_inner_eval.
    destruct (HDNodeWallet_derivePath h (stacks_path i)) as [wallet|e] eqn:Hw; [|done].
    intros (l' & -> & Hl')%IH.
    exists (("SP" +:+ slice (wallet_address wallet) 2 42) :: l').
    split; [by rewrite <- app_assoc|].
    constructor; [|done]. by exists wallet.
Qed.

Lemma deriveStacksAddresses_spec seed count l :
  eval (deriveStacksAddresses seed count) = Ok l ->
  ∃ h, HDNodeWallet_fromSeed seed = Ok h
       ∧ Forall2 (stacks_entry h) (seqZ 0 count) l.
Proof.
  rewrite deriveStacksAddresses_eval.
  destruct (HDNodeWallet_fromSeed seed) as [h|e]; [|done].
  destruct (eval (for_range count _ _)) as [st|e] eqn:Hst; [|done].
  intros [= <-]. exists h. split; [done|].
  apply stacks_sweep_spec in Hst as (l' & -> & Hl'). done.
Qed.

(** With [count <= 0] no loop body runs. *)
Lemma deriveEVMAddresses_empty seed count h :
  HDNodeWallet_fromSeed seed = Ok h -> count ≤ 0 ->
  eval (deriveEVMAddresses seed count) = Ok [].
Proof.
  apply (family_empty _ _ addresses nothing_collected _ _
           (deriveEVMAddresses_eval seed)).
Qed.

Lemma deriveSolanaAddresses_empty seed count :
  count ≤ 0 -> eval (deriveSolanaAddresses seed count) = Ok [].
Proof.
  by apply (family_empty _ (Ok tt) addresses nothing_collected _ _
              (deriveSolanaAddresses_eval seed) count tt).
Qed.

Lemma deriveBitcoinAddresses_empty seed count root :
  bip32_fromSeed seed = Ok root -> count ≤ 0 ->
  eval (deriveBitcoinAddresses seed count) = Ok [].
Proof.
  apply (family_empty _ _ addresses nothing_collected _ _
           (deriveBitcoinAddresses_eval seed)).
Qed.

Lemma deriveStacksAddresses_empty seed count h :
  HDNodeWallet_fromSeed seed = Ok h -> count ≤ 0 ->
  eval (deriveStacksAddresses seed count) = Ok [].
Proof.
  apply (family_empty _ _ id [] _ _ (deriveStacksAddresses_eval seed)).
Qed.

Lemma deriveSuiAddresses_empty seed count :
  count ≤ 0 -> eval (deriveSuiAddresses seed count) = Ok [].
Proof.
  by apply (family_empty _ (Ok tt) addresses nothing_collected _ _
              (deriveSuiAddresses_eval seed) count tt).
Qed.

Lemma deriveAptosAddresses_empty seed count :
  count ≤ 0 -> eval (deriveAptosAddresses seed count) = Ok [].
Proof.
  by apply (family_empty _ (Ok tt) addresses nothing_collected _ _
              (deriveAptosAddresses_eval seed) count tt).
Qed.

End Families.

#[export] Hint Resolve deriveEVMAddresses_framed deriveSolanaAddresses_framed
  deriveBitcoinAddresses_framed deriveStacksAddresses_framed
  deriveSuiAddresses_framed deriveAptosAddresses_framed
  deriveAddresses_framed derivePrivateKey_framed : framed.

(** ** The engine: [deriveAddresses] and [derivePrivateKey] *)

Section Engine.

Context {bip39 : Bip39} {ethers : Ethers} {ed25519_hd_key : Ed25519HdKey}
        {solana_web3 : SolanaWeb3} {bitcoinjs : BitcoinJs}
        {sui_sdk : SuiSdk} {aptos_sdk : AptosSdk}.

Lemma deriveAddresses_eval seedPhrase count :
  eval (deriveAddresses seedPhrase count)
  = if validateMnemonic seedPhrase then
      let seed := mnemonicToSeedSync seedPhrase in
      let n := default 5 count in
      match eval (deriveEVMAddresses seed n) with
      | Throw e => Throw e
      | Ok evm =>
      match eval (deriveSolanaAddresses seed n) with
      | Throw e => Throw e
      | Ok solana =>
      match eval (deriveBitcoinAddresses seed n) with
      | Throw e => Throw e
      | Ok bitcoin =>
      match eval (deriveStacksAddresses seed n) with
      | Throw e => Throw e
      | Ok stacks =>
      match eval (deriveSuiAddresses seed n) with
      | Throw e => Throw e
      | Ok sui =>
      match eval (deriveAptosAddresses seed n) with
      | Throw e => Throw e
      | Ok aptos =>
          Ok [ ("evm", evm); ("solana", solana); ("bitcoin", bitcoin);
               ("stacks", stacks); ("sui", sui); ("aptos", aptos) ]
      end end end end end end
    else Throw (JsError "Invalid BIP39 seed phrase").
Proof.
  unfold deriveAddresses. cbv zeta.
  rewrite eval_bind by (intros; solve_framed). rewrite eval_call.
  destruct (validateMnemonic seedPhrase); [|done]. cbn [negb].
  repeat (rewrite eval_bind by (intros; solve_framed);
          first [rewrite eval_call | rewrite eval_log | idtac];
          try match goal with
              | |- context [match eval ?m with Ok _ => _ | Throw _ => _ end] =>
                  destruct (eval m); [|done]
              end).
  by rewrite eval_ret.
Qed.

Lemma deriveAddresses_inv seedPhrase count s :
  eval (deriveAddresses seedPhrase count) = Ok s ->
  validateMnemonic seedPhrase = true
  ∧ ∃ evm solana bitcoin stacks sui aptos,
      let seed := mnemonicToSeedSync seedPhrase in
      let n := default 5 count in
      eval (deriveEVMAddresses seed n) = Ok evm
      ∧ eval (deriveSolanaAddresses seed n) = Ok solana
      ∧ eval (deriveBitcoinAddresses seed n) = Ok bitcoin
      ∧ eval (deriveStacksAddresses seed n) = Ok stacks
      ∧ eval (deriveSuiAddresses seed n) = Ok sui
      ∧ eval (deriveAptosAddresses seed n) = Ok aptos
      ∧ s = [ ("evm", evm); ("solana", solana); ("bitcoin", bitcoin);
              ("stacks", stacks); ("sui", sui); ("aptos", aptos) ].
Proof.
  rewrite deriveAddresses_eval. cbv zeta.
  destruct (validateMnemonic seedPhrase); [|done].
  repeat match goal with
         | |- context [match eval ?m with Ok _ => _ | Throw _ => _ end] =>
             destruct (eval m); [|done]
         end.
  intros [= <-]. split; [done|]. by repeat eexists.
Qed.

Lemma deriveAddresses_intro seedPhrase count evm solana bitcoin stacks sui aptos :
  let seed := mnemonicToSeedSync seedPhrase in
  let n := default 5 count in
  validateMnemonic seedPhrase = true ->
  eval (deriveEVMAddresses seed n) = Ok evm ->
  eval (deriveSolanaAddresses seed n) = Ok solana ->
  eval (deriveBitcoinAddresses seed n) = Ok bitcoin ->
  eval (deriveStacksAddresses seed n) = Ok stacks ->
  eval (deriveSuiAddresses seed n) = Ok sui ->
  eval (deriveAptosAddresses seed n) = Ok aptos ->
  eval (deriveAddresses seedPhrase count)
  = Ok [ ("evm", evm); ("solana", solana); ("bitcoin", bitcoin);
         ("stacks", stacks); ("sui", sui); ("aptos", aptos) ].
Proof.
  cbv zeta. intros Hv He Hs Hb Hst Hsu Ha.
  rewrite deriveAddresses_eval. cbv zeta.
  by rewrite Hv, He, Hs, Hb, Hst, Hsu, Ha.
Qed.

Lemma deriveAddresses_outcome seedPhrase count w :
  outcome (deriveAddresses seedPhrase count) w
  = eval (deriveAddresses seedPhrase count).
Proof. apply outcome_eval. auto with framed. Qed.


End Engine.

(** ** Properties of the specification *)

Lemma substring_length (n m : nat) (s : string) :
  String.length (String.substring n m s) = Nat.min m (String.length s - n).
Proof.
  revert n m. induction s as [|c s IH]; intros [|n] [|m]; simpl; auto.
  rewrite IH. lia.
Qed.

(** [a.slice(2, 42)] of a 42-character string is its characters 2..41. *)
Lemma slice_2_42 (a : string) :
  String.length a = 42%nat ->
  String.length (slice a 2 42) = 40%nat
  ∧ ∀ k, (k < 40)%nat -> String.get k (slice a 2 42) = String.get (k + 2) a.
Proof.
  intros Hlen. unfold slice. split.
  - rewrite substring_length, Hlen. reflexivity.
  - intros k Hk. by apply substring_correct1.
Qed.

Lemma prefix_of_subseteq {A} (l1 l2 : list A) : l1 `prefix_of` l2 -> l1 ⊆ l2.
Proof. intros [k ->] x Hx. apply elem_of_app. by left. Qed.

Lemma assoc_family_keys {V} (evm solana bitcoin stacks sui aptos : V) family v :
  assoc family [ ("evm", evm); ("solana", solana); ("bitcoin", bitcoin);
                 ("stacks", stacks); ("sui", sui); ("aptos", aptos) ] = Some v ->
  (family = "evm" ∧ v = evm) ∨ (family = "solana" ∧ v = solana)
  ∨ (family = "bitcoin" ∧ v = bitcoin) ∨ (family = "stacks" ∧ v = stacks)
  ∨ (family = "sui" ∧ v = sui) ∨ (family = "aptos" ∧ v = aptos).
Proof.
  cbn [assoc]. repeat case_decide; intros [= <-]; subst; tauto.
Qed.

Section Properties.

Context {bip39 : Bip39} {ethers : Ethers} {ed25519_hd_key : Ed25519HdKey}
        {solana_web3 : SolanaWeb3} {bitcoinjs : BitcoinJs}
        {sui_sdk : SuiSdk} {aptos_sdk : AptosSdk}.

(** The defect behind C2: the EVM loop (and likewise the Stacks loop) has no
    [try] around [hdNode.derivePath], so one failing index ends
    [deriveAddresses] with an exception and no family is returned. *)
Lemma unguarded_failure_aborts seedPhrase count hdNode i e w :
  validateMnemonic seedPhrase = true ->
  HDNodeWallet_fromSeed (mnemonicToSeedSync seedPhrase) = Ok hdNode ->
  0 ≤ i < count ->
  HDNodeWallet_derivePath hdNode ("m/44'/60'/0'/0/" +:+ number_toString i) = Throw e ->
  ∃ e', outcome (deriveAddresses seedPhrase (Some count)) w = Throw e'.
Proof.
  intros Hvalid Hroot Hi Hthrow.
  rewrite deriveAddresses_outcome, deriveAddresses_eval, Hvalid. cbv zeta.
  destruct (deriveEVMAddresses_throws _ count hdNode i e Hroot Hi Hthrow) as [e' He'].
  change (default 5 (Some count)) with count. rewrite He'. eauto.
Qed.

(** With a count of 1 the EVM sequence is exactly the address of the one
    wallet derived at m/44'/60'/0'/0/0.  Which string that address is for a
    given mnemonic is decided inside the bip39 and ethers packages. *)
Lemma evm_sequence_for_count_one seedPhrase w s :
  outcome (deriveAddresses seedPhrase (Some 1)) w = Ok s ->
  ∃ hdNode wallet,
    HDNodeWallet_fromSeed (mnemonicToSeedSync seedPhrase) = Ok hdNode
    ∧ HDNodeWallet_derivePath hdNode "m/44'/60'/0'/0/0" = Ok wallet
    ∧ assoc "evm" s = Some [wallet_address wallet].
Proof.
  rewrite deriveAddresses_outcome.
  intros (_ & evm & solana & bitcoin & stacks & sui & aptos & Hs)%deriveAddresses_inv.
  cbv zeta in Hs. change (default 5 (Some 1)) with 1 in Hs.
  destruct Hs as (Hevm & _ & _ & _ & _ & _ & ->).
  rewrite deriveEVMAddresses_eval in Hevm.
  destruct (HDNodeWallet_fromSeed _) as [hdNode|e] eqn:Hroot; [|done].
  unfold for_range in Hevm. change (seqZ 0 1) with [0] in Hevm.
  rewrite eval_for_of_cons in Hevm
    by (intros; apply framed_for_of; intros; apply evm_candidate_framed).
  rewrite evm_inner_eval in Hevm.
  change (evm_path 0) with "m/44'/60'/0'/0/0" in Hevm.
  destruct (HDNodeWallet_derivePath hdNode _) as [wallet|e] eqn:Hwallet; [|done].
  cbn [for_of] in Hevm. rewrite eval_ret in Hevm.
  injection Hevm as <-. by exists hdNode, wallet.
Qed.

(** The five loops with a [seen] set: the EVM, Solana, Bitcoin, Sui and
    Aptos sequences never hold the same address twice; the Stacks sequence
    is built without a membership test and holds exactly one entry per
    index. *)
Lemma collected_families_have_no_duplicates seedPhrase count w s :
  outcome (deriveAddresses seedPhrase count) w = Ok s ->
  (∀ family l, family ∈ ["evm"; "solana"; "bitcoin"; "sui"; "aptos"] ->
               assoc family s = Some l -> NoDup l)
  ∧ ∃ stacks, assoc "stacks" s = Some stacks
              ∧ length stacks = Z.to_nat (default 5 count).
Proof.
  rewrite deriveAddresses_outcome.
  intros (_ & evm & solana & bitcoin & stacks & sui & aptos & Hs)%deriveAddresses_inv.
  cbv zeta in Hs. destruct Hs as (Hevm & Hsol & Hbtc & Hstx & Hsui & Hapt & ->).
  split.
  - intros family l Hfam Hl.
    apply assoc_family_keys in Hl
      as [[-> ->]|[[-> ->]|[[-> ->]|[[-> ->]|[[-> ->]|[-> ->]]]]]].
    + eauto using deriveEVMAddresses_NoDup.
    + eauto using deriveSolanaAddresses_NoDup.
    + eauto using deriveBitcoinAddresses_NoDup.
    + rewrite !elem_of_cons, elem_of_nil in Hfam.
      destruct Hfam as [?|[?|[?|[?|[?|[]]]]]]; discriminate.
    + eauto using deriveSuiAddresses_NoDup.
    + eauto using deriveAptosAddresses_NoDup.
  - exists stacks. split; [done|].
    apply deriveStacksAddresses_spec in Hstx as (h & _ & Hall).
    apply Forall2_length in Hall. by rewrite <- Hall, length_seqZ.
Qed.

(** The Stacks loop keeps every candidate, whatever the package returns:
    when the wallets of two indices below [count] agree on the characters
    2 to 42 of their address, the sequence holds that entry twice. *)
Lemma stacks_keeps_a_repeated_candidate seed count w l h i j wi wj :
  outcome (deriveStacksAddresses seed count) w = Ok l ->
  HDNodeWallet_fromSeed seed = Ok h ->
  0 ≤ i < j -> j < count ->
  HDNodeWallet_derivePath h (stacks_path i) = Ok wi ->
  HDNodeWallet_derivePath h (stacks_path j) = Ok wj ->
  slice (wallet_address wi) 2 42 = slice (wallet_address wj) 2 42 ->
  ¬ NoDup l.
Proof.
  rewrite outcome_eval by auto with framed.
  intros (h' & Hh' & Hall)%deriveStacksAddresses_spec Hh Hij Hj Hwi Hwj Hsame.
  rewrite Hh in Hh'. injection Hh' as <-.
  assert (seqZ 0 count !! Z.to_nat i = Some i) as Hi'
    by (rewrite lookup_seqZ; split; lia).
  assert (seqZ 0 count !! Z.to_nat j = Some j) as Hj'
    by (rewrite lookup_seqZ; split; lia).
  destruct (Forall2_lookup_l _ _ _ _ _ Hall Hi') as (a & Ha & wa & Hwa & ->).
  destruct (Forall2_lookup_l _ _ _ _ _ Hall Hj') as (b & Hb & wb & Hwb & ->).
  rewrite Hwi in Hwa. injection Hwa as <-.
  rewrite Hwj in Hwb. injection Hwb as <-.
  rewrite Hsame in Ha. intros Hnodup.
  pose proof (NoDup_lookup _ _ _ _ Hnodup Ha Hb). lia.
Qed.

(** C4 (amended): for every family name other than evm, stacks, solana, sui
    and aptos -- bitcoin included, although it has registered templates --
    [derivePrivateKey] throws "Private key derivation not implemented for
    <family>"; the call changes nothing else. *)
Theorem derivePrivateKey_not_implemented seedPhrase chain index w :
  chain ∉ ["evm"; "stacks"; "solana"; "sui"; "aptos"] ->
  derivePrivateKey seedPhrase chain index w
  = (w ++ [lib_call "bip39" "mnemonicToSeedSync" seedPhrase],
     Throw (JsError ("Private key derivation not implemented for " +:+ chain))).
Proof.
  intros Hchain. unfold derivePrivateKey, bind, call, throw.
  rewrite !bool_decide_eq_false_2; [done|set_solver..].
Qed.

(** The slip in the other branches of [derivePrivateKey]:
    [DERIVATION_PATHS[chain]] is an array, and calling an array throws. *)
Lemma derivePrivateKey_calls_an_array seedPhrase chain index w :
  chain ∈ ["evm"; "stacks"; "solana"; "sui"; "aptos"] ->
  ∃ e, outcome (derivePrivateKey seedPhrase chain index) w = Throw e.
Proof.
  intros Hchain. unfold outcome, derivePrivateKey, bind, call, throw, apply_value.
  cbn [fst snd].
  repeat (apply elem_of_cons in Hchain as [->|Hchain]);
    [..|by apply elem_of_nil in Hchain]; cbn;
    try destruct (HDNodeWallet_fromSeed _); cbn; eauto.
Qed.


(** C7: when the call with the larger count returns, the call with the
    smaller count returns too, and each of its family sequences is an initial
    segment of -- hence contained in -- the corresponding larger one. *)
Theorem count_scaling seedPhrase n1 n2 w1 w2 s2 :
  n1 < n2 ->
  outcome (deriveAddresses seedPhrase (Some n2)) w2 = Ok s2 ->
  ∃ s1, outcome (deriveAddresses seedPhrase (Some n1)) w1 = Ok s1
        ∧ ∀ family l1, assoc family s1 = Some l1 ->
            ∃ l2, assoc family s2 = Some l2 ∧ l1 `prefix_of` l2 ∧ l1 ⊆ l2.
Proof.
  intros Hlt. rewrite !deriveAddresses_outcome.
  intros (Hvalid & evm & solana & bitcoin & stacks & sui & aptos & Hs)%deriveAddresses_inv.
  cbv zeta in Hs. change (default 5 (Some n2)) with n2 in Hs.
  destruct Hs as (Hevm & Hsol & Hbtc & Hstx & Hsui & Hapt & ->).
  apply (deriveEVMAddresses_monotone _ n1) in Hevm as (evm1 & Hevm1 & ?); [|lia].
  apply (deriveSolanaAddresses_monotone _ n1) in Hsol as (sol1 & Hsol1 & ?); [|lia].
  apply (deriveBitcoinAddresses_monotone _ n1) in Hbtc as (btc1 & Hbtc1 & ?); [|lia].
  apply (deriveStacksAddresses_monotone _ n1) in Hstx as (stx1 & Hstx1 & ?); [|lia].
  apply (deriveSuiAddresses_monotone _ n1) in Hsui as (sui1 & Hsui1 & ?); [|lia].
  apply (deriveAptosAddresses_monotone _ n1) in Hapt as (apt1 & Hapt1 & ?); [|lia].
  eexists. split.
  { by apply deriveAddresses_intro. }
  intros family l1 Hl1.
  apply assoc_family_keys in Hl1
    as [[-> ->]|[[-> ->]|[[-> ->]|[[-> ->]|[[-> ->]|[-> ->]]]]]];
    eexists; (split; [reflexivity|]); split; auto using prefix_of_subseteq.
Qed.


(** C9: entry [i] of the Stacks sequence is "SP" followed by characters
    2..41 of the EVM-style address of the wallet derived at
    m/44'/5757'/0'/0/i. *)
Theorem stacks_entries_are_sliced_evm_addresses seedPhrase count w s :
  outcome (deriveAddresses seedPhrase count) w = Ok s ->
  ∃ hdNode stacks,
    HDNodeWallet_fromSeed (mnemonicToSeedSync seedPhrase) = Ok hdNode
    ∧ assoc "stacks" s = Some stacks
    ∧ ∀ i, 0 ≤ i < default 5 count ->
        ∃ wallet,
          HDNodeWallet_derivePath hdNode ("m/44'/5757'/0'/0/" +:+ number_toString i)
          = Ok wallet
          ∧ stacks !! Z.to_nat i = Some ("SP" +:+ slice (wallet_address wallet) 2 42)
          ∧ (String.length (wallet_address wallet) = 42%nat ->
             String.length (slice (wallet_address wallet) 2 42) = 40%nat
             ∧ ∀ k, (k < 40)%nat ->
                 String.get k (slice (wallet_address wallet) 2 42)
                 = String.get (k + 2) (wallet_address wallet)).
Proof.
  rewrite deriveAddresses_outcome.
  intros (_ & evm & solana & bitcoin & stacks & sui & aptos & Hs)%deriveAddresses_inv.
  cbv zeta in Hs. destruct Hs as (_ & _ & _ & Hstx & _ & _ & ->).
  apply deriveStacksAddresses_spec in Hstx as (h & Hh & Hall).
  exists h, stacks. split_and!; [done..|].
  intros i Hi.
  assert (seqZ 0 (default 5 count) !! Z.to_nat i = Some i) as Hlook.
  { rewrite lookup_seqZ_lt by lia. f_equal. lia. }
  destruct (Forall2_lookup_l _ _ _ _ _ Hall Hlook) as (a & Ha & wallet & Hw & ->).
  exists wallet. split_and!; [done..|]. apply slice_2_42.
Qed.

(** C10: an omitted count is 5; a count of zero or less is not rejected:
    for a valid mnemonic whose two roots can be built, the call returns the
    six families, all empty. *)
Theorem count_is_not_validated seedPhrase count hdNode root w :
  validateMnemonic seedPhrase = true ->
  HDNodeWallet_fromSeed (mnemonicToSeedSync seedPhrase) = Ok hdNode ->
  bip32_fromSeed (mnemonicToSeedSync seedPhrase) = Ok root ->
  count ≤ 0 ->
  deriveAddresses seedPhrase None = deriveAddresses seedPhrase (Some 5)
  ∧ outcome (deriveAddresses seedPhrase (Some count)) w
    = Ok [ ("evm", []); ("solana", []); ("bitcoin", []);
           ("stacks", []); ("sui", []); ("aptos", []) ].
Proof.
  intros Hvalid Hh Hroot Hle. split; [done|].
  rewrite deriveAddresses_outcome.
  apply deriveAddresses_intro; change (default 5 (Some count)) with count;
    eauto using deriveEVMAddresses_empty, deriveSolanaAddresses_empty,
      deriveBitcoinAddresses_empty, deriveStacksAddresses_empty,
      deriveSuiAddresses_empty, deriveAptosAddresses_empty.
Qed.

End Properties.

(** ** The properties on concrete runs *)

Import Mock.

(** C2 (the code departs from it): with the test double whose EVM derivation
    fails at index 1 only, a count of 1 returns all six families, while a
    count of 2 throws out of [deriveAddresses]: the failing candidate is not
    skipped, and the five other families, none of which fails, are not
    produced either. *)
Theorem one_failing_evm_candidate_aborts_the_call :
  (∃ s, outcome (run_deriveAddresses ethers_failing test_mnemonic (Some 1)) [] = Ok s)
  ∧ outcome (run_deriveAddresses ethers_failing test_mnemonic (Some 2)) []
    = Throw (JsError "invalid path index").
Proof.
  split.
  - eexists. vm_compute. reflexivity.
  - vm_compute. reflexivity.
Qed.


Lemma collected_families_have_no_duplicates_witness :
  ∃ s,
    outcome (run_deriveAddresses ethers_plain test_mnemonic (Some 2)) [] = Ok s
    ∧ (∀ family l, family ∈ ["evm"; "solana"; "bitcoin"; "sui"; "aptos"] ->
                   assoc family s = Some l -> NoDup l)
    ∧ ∃ stacks, assoc "stacks" s = Some stacks
                ∧ length stacks = Z.to_nat (default 5 (Some 2)).
Proof.
  eexists. split; [vm_compute; reflexivity|].
  apply (@collected_families_have_no_duplicates bip39 ethers_plain ed25519_hd_key
           solana_web3 bitcoinjs sui_sdk aptos_sdk test_mnemonic (Some 2) []).
  vm_compute. reflexivity.
Defined.

(** C4 as stated fails for bitcoin: the family has registered templates,
    the mnemonic is accepted, and the accessor throws. *)
Lemma bitcoin_private_key_is_refused :
  is_Some (assoc "bitcoin" DERIVATION_PATHS)
  ∧ validateMnemonic (Bip39 := bip39) test_mnemonic = true
  ∧ outcome (run_derivePrivateKey ethers_plain test_mnemonic "bitcoin" (Some 0)) []
    = Throw (JsError "Private key derivation not implemented for bitcoin").
Proof.
  split_and!.
  - eexists. reflexivity.
  - vm_compute. reflexivity.
  - vm_compute. reflexivity.
Qed.

Lemma derivePrivateKey_not_implemented_witness :
  ("bitcoin" ∉ ["evm"; "stacks"; "solana"; "sui"; "aptos"])
  ∧ run_derivePrivateKey ethers_plain test_mnemonic "bitcoin" (Some 0) []
    = ([] ++ [lib_call "bip39" "mnemonicToSeedSync" test_mnemonic],
       Throw (JsError ("Private key derivation not implemented for " +:+ "bitcoin"))).
Proof.
  assert ("bitcoin" ∉ ["evm"; "stacks"; "solana"; "sui"; "aptos"]) as Hnot.
  { rewrite !elem_of_cons, elem_of_nil.
    intros [?|[?|[?|[?|[?|[]]]]]]; discriminate. }
  split; [exact Hnot|].
  exact (@derivePrivateKey_not_implemented bip39 ethers_plain ed25519_hd_key
           test_mnemonic "bitcoin" (Some 0) [] Hnot).
Defined.



Lemma count_scaling_witness :
  1 < 2
  ∧ ∃ s2,
      outcome (run_deriveAddresses ethers_plain test_mnemonic (Some 2)) [] = Ok s2
      ∧ ∃ s1,
          outcome (run_deriveAddresses ethers_plain test_mnemonic (Some 1)) [] = Ok s1
          ∧ ∀ family l1, assoc family s1 = Some l1 ->
              ∃ l2, assoc family s2 = Some l2 ∧ l1 `prefix_of` l2 ∧ l1 ⊆ l2.
Proof.
  split; [lia|]. eexists. split; [vm_compute; reflexivity|].
  apply (@count_scaling bip39 ethers_plain ed25519_hd_key solana_web3 bitcoinjs
           sui_sdk aptos_sdk test_mnemonic 1 2 [] []); [lia|].
  vm_compute. reflexivity.
Defined.



Lemma stacks_entries_are_sliced_evm_addresses_witness :
  ∃ s,
    outcome (run_deriveAddresses ethers_plain test_mnemonic (Some 2)) [] = Ok s
    ∧ ∃ hdNode stacks,
        HDNodeWallet_fromSeed (Ethers := ethers_plain)
          (mnemonicToSeedSync (Bip39 := bip39) test_mnemonic) = Ok hdNode
        ∧ assoc "stacks" s = Some stacks
        ∧ ∀ i, 0 ≤ i < default 5 (Some 2) ->
            ∃ wallet,
              HDNodeWallet_derivePath (Ethers := ethers_plain) hdNode
                ("m/44'/5757'/0'/0/" +:+ number_toString i) = Ok wallet
              ∧ stacks !! Z.to_nat i
                = Some ("SP" +:+ slice (wallet_address (Ethers := ethers_plain) wallet) 2 42)
              ∧ (String.length (wallet_address (Ethers := ethers_plain) wallet) = 42%nat ->
                 String.length (slice (wallet_address (Ethers := ethers_plain) wallet) 2 42)
                 = 40%nat
                 ∧ ∀ k, (k < 40)%nat ->
                     String.get k (slice (wallet_address (Ethers := ethers_plain) wallet) 2 42)
                     = String.get (k + 2) (wallet_address (Ethers := ethers_plain) wallet)).
Proof.
  eexists. split; [vm_compute; reflexivity|].
  apply (@stacks_entries_are_sliced_evm_addresses bip39 ethers_plain ed25519_hd_key
           solana_web3 bitcoinjs sui_sdk aptos_sdk test_mnemonic (Some 2) []).
  vm_compute. reflexivity.
Defined.

Lemma count_is_not_validated_witness :
  validateMnemonic (Bip39 := bip39) test_mnemonic = true
  ∧ -3 ≤ 0
  ∧ run_deriveAddresses ethers_plain test_mnemonic None
    = run_deriveAddresses ethers_plain test_mnemonic (Some 5)
  ∧ outcome (run_deriveAddresses ethers_plain test_mnemonic (Some (-3))) []
    = Ok [ ("evm", []); ("solana", []); ("bitcoin", []);
           ("stacks", []); ("sui", []); ("aptos", []) ].
Proof.
  assert (validateMnemonic (Bip39 := bip39) test_mnemonic = true) as Hvalid
    by (vm_compute; reflexivity).
  assert (-3 ≤ 0) as Hle by lia.
  destruct (@count_is_not_validated bip39 ethers_plain ed25519_hd_key
              solana_web3 bitcoinjs sui_sdk aptos_sdk test_mnemonic (-3) "m" "m" []
              Hvalid eq_refl eq_refl Hle) as [Hdefault Hempty].
  split_and!; [exact Hvalid | exact Hle | exact Hdefault | exact Hempty].
Defined.

(** * What each family function returns

    The loops of src/derivation.js read as list functions: which candidates
    are tried, in which order, which are kept. *)

Lemma keep_first_prefix acc a : acc `prefix_of` keep_first acc a.
Proof. unfold keep_first. case_decide; [done|]. by apply prefix_app_r. Qed.

Lemma keep_first_elem acc a x : x ∈ keep_first acc a ↔ x ∈ acc ∨ x = a.
Proof.
  unfold keep_first. case_decide as Hin.
  - split; [auto|]. intros [?| ->]; done.
  - by rewrite elem_of_app, list_elem_of_singleton.
Qed.

Lemma keep_first_NoDup acc a : NoDup acc -> NoDup (keep_first acc a).
Proof.
  intros Hnd. unfold keep_first. case_decide as Hin; [done|].
  apply NoDup_app. split_and!; [done| |apply NoDup_singleton].
  by intros x Hx ->%list_elem_of_singleton.
Qed.

Lemma keep_first_length acc a : (length (keep_first acc a) ≤ S (length acc))%nat.
Proof.
  unfold keep_first. case_decide; [lia|]. rewrite length_app. simpl. lia.
Qed.

Lemma fold_keep_first_elem l acc x :
  x ∈ fold_left keep_first l acc ↔ x ∈ acc ∨ x ∈ l.
Proof.
  revert acc. induction l as [|a l IH]; intros acc; simpl.
  - rewrite elem_of_nil. tauto.
  - rewrite IH, keep_first_elem, elem_of_cons. tauto.
Qed.

Lemma fold_keep_first_NoDup l acc : NoDup acc -> NoDup (fold_left keep_first l acc).
Proof.
  revert acc. induction l as [|a l IH]; intros acc Hnd; simpl; [done|].
  by apply IH, keep_first_NoDup.
Qed.

Lemma fold_keep_first_length l acc :
  (length (fold_left keep_first l acc) ≤ length acc + length l)%nat.
Proof.
  revert acc. induction l as [|a l IH]; intros acc; simpl; [lia|].
  etrans; [apply IH|]. pose proof (keep_first_length acc a). lia.
Qed.

Lemma first_occurrences_elem l x : x ∈ first_occurrences l ↔ x ∈ l.
Proof.
  unfold first_occurrences. rewrite fold_keep_first_elem, elem_of_nil. tauto.
Qed.

Lemma first_occurrences_NoDup l : NoDup (first_occurrences l).
Proof. apply fold_keep_first_NoDup. constructor. Qed.

Lemma first_occurrences_length l : (length (first_occurrences l) ≤ length l)%nat.
Proof. apply (fold_keep_first_length l []). Qed.

Lemma addresses_push_if_new a st :
  coherent st -> addresses (push_if_new a st) = keep_first (addresses st) a.
Proof.
  intros [_ Hseen]. unfold push_if_new, keep_first.
  destruct (decide (a ∈ seen st)) as [Hin|Hin].
  - rewrite decide_True; [done|]. by apply Hseen.
  - rewrite decide_False; [done|]. by rewrite <- Hseen.
Qed.

Lemma gather_app cands1 cands2 acc :
  gather (cands1 ++ cands2) acc
  = match gather cands1 acc with
    | Ok acc' => gather cands2 acc'
    | Throw e => Throw e
    end.
Proof.
  revert acc. induction cands1 as [|[[a|]|e] cands1 IH]; intros acc; simpl; auto.
Qed.

(** When no candidate throws, the run keeps the first occurrences of the
    addresses that were produced. *)
Lemma gather_all_ok (opts : list (option string)) acc :
  gather (Ok <$> opts) acc = Ok (fold_left keep_first (omap id opts) acc).
Proof.
  revert acc. induction opts as [|[a|] opts IH]; intros acc; simpl; auto.
Qed.

Lemma gather_Ok_inv cands acc l :
  gather cands acc = Ok l ->
  ∃ opts, cands = Ok <$> opts ∧ l = fold_left keep_first (omap id opts) acc.
Proof.
  revert acc. induction cands as [|[o|e] cands IH]; intros acc; simpl.
  - intros [= <-]. by exists [].
  - destruct o as [a|]; intros (opts & -> & ->)%IH.
    + by exists (Some a :: opts).
    + by exists (None :: opts).
  - done.
Qed.

(** The run ends with the exception of the first candidate that throws. *)
Lemma gather_first_throw (opts : list (option string)) e rest acc :
  gather ((Ok <$> opts) ++ Throw e :: rest) acc = Throw e.
Proof. by rewrite gather_app, gather_all_ok. Qed.

Lemma gather_Throw_inv cands acc e :
  gather cands acc = Throw e ->
  ∃ opts rest, cands = (Ok <$> opts) ++ Throw e :: rest.
Proof.
  revert acc. induction cands as [|[o|e'] cands IH]; intros acc; simpl.
  - done.
  - destruct o as [a|]; intros (opts & rest & ->)%IH.
    + by exists (Some a :: opts), rest.
    + by exists (None :: opts), rest.
  - intros [= ->]. by exists [], cands.
Qed.

(** The nested loops of a collecting family compute [gather]. *)
Section GatherLoop.

Context (paths : list PathFn) (body : Z -> PathFn -> Collected -> M Collected).
Context (cand : Z -> PathFn -> Candidate).

Hypothesis body_framed : ∀ i p st, framed (body i p st).
Hypothesis body_eval : ∀ i p st,
  eval (body i p st)
  = match cand i p with
    | Ok (Some a) => Ok (push_if_new a st)
    | Ok None => Ok st
    | Throw e => Throw e
    end.

Lemma inner_gather i ps st :
  coherent st ->
  agrees (eval (for_of ps (body i) st)) (gather (map (cand i) ps) (addresses st)).
Proof.
  revert st. induction ps as [|p ps IH]; intros st Hst.
  - cbn [for_of map gather]. rewrite eval_ret. by split.
  - rewrite eval_for_of_cons by done. cbn [map gather]. rewrite body_eval.
    destruct (cand i p) as [[a|]|e]; [| |done].
    + rewrite <- addresses_push_if_new by done.
      by apply IH, push_if_new_coherent.
    + by apply IH.
Qed.

Lemma sweep_gather indices st :
  coherent st ->
  agrees (eval (sweep paths body indices st))
         (gather (candidates paths cand indices) (addresses st)).
Proof.
  revert st. induction indices as [|i indices IH]; intros st Hst.
  - unfold sweep, candidates. cbn [for_of map concat gather].
    rewrite eval_ret. by split.
  - unfold sweep. rewrite eval_for_of_cons
      by (intros; apply framed_for_of; intros; apply body_framed).
    unfold candidates. cbn [map concat]. rewrite gather_app.
    pose proof (inner_gather i paths st Hst) as Hinner.
    destruct (eval (for_of paths (body i) st)) as [st1|e],
             (gather (map (cand i) paths) (addresses st)) as [l1|e'];
      try done.
    destruct Hinner as [Hst1 <-]. by apply IH.
Qed.

End GatherLoop.

(** A family function with a root, read as a run over its candidates. *)
Lemma family_gather {R} (f : Z -> M (list string)) (root : result R)
      (paths : list PathFn) (body : R -> Z -> PathFn -> Collected -> M Collected)
      (cand : R -> Z -> PathFn -> Candidate) :
  (∀ r i p st, framed (body r i p st)) ->
  (∀ r i p st,
     eval (body r i p st)
     = match cand r i p with
       | Ok (Some a) => Ok (push_if_new a st)
       | Ok None => Ok st
       | Throw e => Throw e
       end) ->
  (∀ count,
     eval (f count)
     = match root with
       | Ok r =>
           match eval (for_range count (fun i => for_of paths (body r i))
                         nothing_collected) with
           | Ok st => Ok (addresses st)
           | Throw e => Throw e
           end
       | Throw e => Throw e
       end) ->
  ∀ count,
    eval (f count)
    = match root with
      | Ok r => gather (candidates paths (cand r) (seqZ 0 count)) []
      | Throw e => Throw e
      end.
Proof.
  intros Hframed Hbody Hf count. rewrite Hf. destruct root as [r|e]; [|done].
  pose proof (sweep_gather paths (body r) (cand r) (Hframed r) (Hbody r)
                (seqZ 0 count) nothing_collected coherent_nothing) as Hagree.
  unfold sweep in Hagree. unfold for_range.
  destruct (eval (for_of (seqZ 0 count) _ nothing_collected)) as [st|e],
           (gather _ _) as [l|e']; try done.
  - by destruct Hagree as [_ ->].
  - cbn in Hagree. by subst.
Qed.

Lemma candidates_fmap {A B} (g : A -> B) paths (c : Z -> PathFn -> A) indices :
  candidates paths (fun i p => g (c i p)) indices = g <$> candidates paths c indices.
Proof.
  unfold candidates. induction indices as [|i indices IH]; [done|].
  cbn [map concat]. rewrite fmap_app, IH. f_equal.
  by rewrite <- list_fmap_compose.
Qed.

Lemma omap_id_fmap {A B} (g : A -> option B) (l : list A) :
  omap id (g <$> l) = omap g l.
Proof.
  induction l as [|a l IH]; csimpl; [done|].
  rewrite IH. by destruct (g a).
Qed.

Lemma length_candidates {C} paths (c : Z -> PathFn -> C) indices :
  length (candidates paths c indices) = (length indices * length paths)%nat.
Proof.
  unfold candidates. induction indices as [|i indices IH]; [done|].
  cbn [map concat]. rewrite length_app, length_map, IH. simpl. lia.
Qed.

Lemma elem_of_candidates {C} paths (c : Z -> PathFn -> C) indices x :
  x ∈ candidates paths c indices ↔ ∃ i p, i ∈ indices ∧ p ∈ paths ∧ x = c i p.
Proof.
  unfold candidates. induction indices as [|i indices IH].
  - cbn. rewrite elem_of_nil. split; [done|]. intros (i & p & Hi & _).
    by apply elem_of_nil in Hi.
  - cbn [map concat]. rewrite elem_of_app, IH. split.
    + intros [Hx|(j & p & Hj & Hp & ->)].
      * apply list_elem_of_fmap in Hx as (p & -> & Hp).
        exists i, p. split_and!; [by left|done..].
      * exists j, p. split_and!; [by right|done..].
    + intros (j & p & [->|Hj]%elem_of_cons & Hp & ->).
      * left. apply list_elem_of_fmap. eauto.
      * right. eauto.
Qed.

(** A sweep throws the exception of the first index whose inner loop throws. *)
Lemma sweep_first_throw {S} (paths : list PathFn) (body : Z -> PathFn -> S -> M S)
      (before : list Z) (i : Z) (after : list Z) (e : exn) :
  (∀ j p st, framed (body j p st)) ->
  (∀ j st, j ∈ before -> ∃ st', eval (for_of paths (body j) st) = Ok st') ->
  (∀ st, eval (for_of paths (body i) st) = Throw e) ->
  ∀ st, eval (sweep paths body (before ++ i :: after) st) = Throw e.
Proof.
  intros Hframed Hbefore Hi. induction before as [|j before IH]; intros st.
  - unfold sweep. cbn [app]. rewrite eval_for_of_cons
      by (intros; apply framed_for_of; intros; apply Hframed).
    by rewrite Hi.
  - unfold sweep. cbn [app]. rewrite eval_for_of_cons
      by (intros; apply framed_for_of; intros; apply Hframed).
    destruct (Hbefore j st) as [st' ->]; [by left|].
    apply IH. intros. apply Hbefore. by right.
Qed.

Lemma seqZ_split_at (i count : Z) :
  0 ≤ i < count -> seqZ 0 count = seqZ 0 i ++ i :: seqZ (i + 1) (count - i - 1).
Proof.
  intros Hi.
  assert (seqZ 0 count = seqZ 0 (i + (count - i))) as -> by (f_equal; lia).
  rewrite seqZ_app by lia. f_equal.
  rewrite (seqZ_cons (0 + i)) by lia. repeat (f_equal; try lia).
Qed.

Section FamilyReadings.

Context {bip39 : Bip39} {ethers : Ethers} {ed25519_hd_key : Ed25519HdKey}
        {solana_web3 : SolanaWeb3} {bitcoinjs : BitcoinJs}
        {sui_sdk : SuiSdk} {aptos_sdk : AptosSdk}.

Lemma evm_candidate_reading h i p st :
  eval (evm_candidate h i p st)
  = match evm_address h (p i) with
    | Ok (Some a) => Ok (push_if_new a st)
    | Ok None => Ok st
    | Throw e => Throw e
    end.
Proof.
  rewrite evm_candidate_eval. unfold evm_address.
  by destruct HDNodeWallet_derivePath.
Qed.

Lemma solana_candidate_reading seed u i p st :
  eval (solana_candidate seed u i p st)
  = match Ok (solana_address seed (p i)) with
    | Ok (Some a) => Ok (push_if_new a st)
    | Ok None => Ok st
    | Throw e => Throw e
    end.
Proof.
  unfold solana_candidate, solana_address. cbv zeta.
  rewrite eval_try_catch by auto with framed. eval_steps.
  destruct (derivePath _ _) as [derived|]; [|done]. eval_steps.
  destruct (Keypair_fromSeed _) as [keypair|]; [|done]. eval_steps.
  by destruct (publicKey_toBase58 _).
Qed.

Lemma sui_candidate_reading seed u i p st :
  eval (sui_candidate seed u i p st)
  = match Ok (sui_address seed (p i)) with
    | Ok (Some a) => Ok (push_if_new a st)
    | Ok None => Ok st
    | Throw e => Throw e
    end.
Proof.
  unfold sui_candidate, sui_address. cbv zeta.
  rewrite eval_try_catch by auto with framed. eval_steps.
  destruct (derivePath _ _) as [derived|]; [|done]. eval_steps.
  destruct (Ed25519Keypair_fromSecretKey _) as [keypair|]; [|done]. eval_steps.
  by destruct (toSuiAddress _).
Qed.

Lemma aptos_candidate_reading seed u i p st :
  eval (aptos_candidate seed u i p st)
  = match Ok (aptos_address seed (p i)) with
    | Ok (Some a) => Ok (push_if_new a st)
    | Ok None => Ok st
    | Throw e => Throw e
    end.
Proof.
  unfold aptos_candidate, aptos_address. cbv zeta.
  rewrite eval_try_catch by auto with framed. eval_steps.
  destruct (derivePath _ _) as [derived|]; [|done]. eval_steps.
  destruct (Ed25519PrivateKey_new _) as [privateKey|]; [|done]. eval_steps.
  by destruct (authKey_toString _).
Qed.

Lemma bitcoin_candidate_reading root i p st :
  eval (bitcoin_candidate root i p st)
  = match Ok (bitcoin_address root (p i)) with
    | Ok (Some a) => Ok (push_if_new a st)
    | Ok None => Ok st
    | Throw e => Throw e
    end.
Proof.
  unfold bitcoin_candidate, bitcoin_address, bitcoin_payment. cbv zeta.
  rewrite eval_try_catch by auto with framed. eval_steps.
  destruct (bip32_derivePath _ _) as [child|]; [|done]. eval_steps.
  destruct (includes (p i) "m/84'").
  - eval_steps. destruct (payments_p2wpkh _) as [payment|]; [|done].
    destruct (payment_address payment) as [[|c a]|]; by eval_steps.
  - destruct (includes (p i) "m/49'").
    + eval_steps. destruct (payments_p2wpkh _) as [redeem|]; [|done]. eval_steps.
      destruct (payments_p2sh _) as [payment|]; [|done].
      destruct (payment_address payment) as [[|c a]|]; by eval_steps.
    + eval_steps. destruct (payments_p2pkh _) as [payment|]; [|done].
      destruct (payment_address payment) as [[|c a]|]; by eval_steps.
Qed.

End FamilyReadings.

Lemma candidates_single {C} (pathFn : PathFn) (c : Z -> PathFn -> C) indices :
  candidates [pathFn] c indices = (fun i => c i pathFn) <$> indices.
Proof.
  unfold candidates. induction indices as [|i indices IH]; [done|].
  cbn [map concat app] in *. by rewrite IH.
Qed.

Lemma tried_paths_single (pathFn : PathFn) (count : Z) :
  tried_paths [pathFn] count = pathFn <$> seqZ 0 count.
Proof. apply candidates_single. Qed.

Lemma length_tried_paths paths count :
  length (tried_paths paths count) = (Z.to_nat count * length paths)%nat.
Proof. unfold tried_paths. by rewrite length_candidates, length_seqZ. Qed.

Section FamilySequences.

Context {bip39 : Bip39} {ethers : Ethers} {ed25519_hd_key : Ed25519HdKey}
        {solana_web3 : SolanaWeb3} {bitcoinjs : BitcoinJs}
        {sui_sdk : SuiSdk} {aptos_sdk : AptosSdk}.

(** A family whose candidates never throw returns the first occurrences of
    the addresses of its candidates. *)
Lemma guarded_family_reading {R} (f : Z -> M (list string)) (root : result R)
      (paths : list PathFn) (body : R -> Z -> PathFn -> Collected -> M Collected)
      (address_of : R -> string -> option string) :
  (∀ r i p st, framed (body r i p st)) ->
  (∀ r i p st,
     eval (body r i p st)
     = match Ok (address_of r (p i)) with
       | Ok (Some a) => Ok (push_if_new a st)
       | Ok None => Ok st
       | Throw e => Throw e
       end) ->
  (∀ count,
     eval (f count)
     = match root with
       | Ok r =>
           match eval (for_range count (fun i => for_of paths (body r i))
                         nothing_collected) with
           | Ok st => Ok (addresses st)
           | Throw e => Throw e
           end
       | Throw e => Throw e
       end) ->
  ∀ count,
    eval (f count)
    = match root with
      | Ok r => Ok (first_occurrences (omap (address_of r) (tried_paths paths count)))
      | Throw e => Throw e
      end.
Proof.
  intros Hframed Hbody Hf count.
  rewrite (family_gather f root paths body (fun r i p => Ok (address_of r (p i))))
    by done.
  destruct root as [r|e]; [|done].
  rewrite (candidates_fmap Ok paths (fun i p => address_of r (p i))).
  rewrite gather_all_ok. unfold first_occurrences, tried_paths.
  by rewrite (candidates_fmap (address_of r) paths (fun i p => p i)), omap_id_fmap.
Qed.

Lemma deriveSolanaAddresses_reading seed count :
  eval (deriveSolanaAddresses seed count)
  = Ok (first_occurrences
          (omap (solana_address seed) (tried_paths DERIVATION_PATHS_solana count))).
Proof.
  apply (guarded_family_reading _ (Ok tt) _ (solana_candidate seed)
           (fun _ => solana_address seed) (solana_candidate_framed seed)
           (solana_candidate_reading seed) (deriveSolanaAddresses_eval seed)).
Qed.

Lemma deriveSuiAddresses_reading seed count :
  eval (deriveSuiAddresses seed count)
  = Ok (first_occurrences
          (omap (sui_address seed) (tried_paths DERIVATION_PATHS_sui count))).
Proof.
  apply (guarded_family_reading _ (Ok tt) _ (sui_candidate seed)
           (fun _ => sui_address seed) (sui_candidate_framed seed)
           (sui_candidate_reading seed) (deriveSuiAddresses_eval seed)).
Qed.

Lemma deriveAptosAddresses_reading seed count :
  eval (deriveAptosAddresses seed count)
  = Ok (first_occurrences
          (omap (aptos_address seed) (tried_paths DERIVATION_PATHS_aptos count))).
Proof.
  apply (guarded_family_reading _ (Ok tt) _ (aptos_candidate seed)
           (fun _ => aptos_address seed) (aptos_candidate_framed seed)
           (aptos_candidate_reading seed) (deriveAptosAddresses_eval seed)).
Qed.

Lemma deriveBitcoinAddresses_reading seed count :
  eval (deriveBitcoinAddresses seed count)
  = match bip32_fromSeed seed with
    | Ok root =>
        Ok (first_occurrences
              (omap (bitcoin_address root) (tried_paths DERIVATION_PATHS_bitcoin count)))
    | Throw e => Throw e
    end.
Proof.
  apply (guarded_family_reading _ _ _ bitcoin_candidate bitcoin_address
           bitcoin_candidate_framed bitcoin_candidate_reading
           (deriveBitcoinAddresses_eval seed)).
Qed.

Lemma deriveEVMAddresses_reading seed count :
  eval (deriveEVMAddresses seed count)
  = match HDNodeWallet_fromSeed seed with
    | Ok hdNode => gather (evm_address hdNode <$> (evm_path <$> seqZ 0 count)) []
    | Throw e => Throw e
    end.
Proof.
  rewrite (family_gather _ _ _ evm_candidate (fun h i p => evm_address h (p i))
             evm_candidate_framed evm_candidate_reading
             (deriveEVMAddresses_eval seed)).
  destruct (HDNodeWallet_fromSeed seed) as [h|e]; [|done].
  rewrite (candidates_fmap (evm_address h) _ (fun i p => p i)).
  fold (tried_paths DERIVATION_PATHS_evm count).
  unfold DERIVATION_PATHS_evm. by rewrite tried_paths_single.
Qed.

(** The wallets behind a run of EVM candidates that all returned. *)
Lemma evm_addresses_all_ok h (paths : list string) (opts : list (option string)) :
  evm_address h <$> paths = Ok <$> opts ->
  ∃ wallets,
    Forall2 (fun path wallet => HDNodeWallet_derivePath h path = Ok wallet) paths wallets
    ∧ omap id opts = wallet_address <$> wallets.
Proof.
  revert opts. induction paths as [|path paths IH]; intros [|o opts]; try done.
  - intros _. by exists [].
  - csimpl. intros [= Hpath Hrest]. apply IH in Hrest as (wallets & Hall & Hopts).
    unfold evm_address in Hpath.
    destruct (HDNodeWallet_derivePath h path) as [wallet|e] eqn:Hw; [|done].
    injection Hpath as <-. exists (wallet :: wallets). split.
    + by constructor.
    + csimpl. by rewrite Hopts.
Qed.

End FamilySequences.

Lemma length_omap_le {A B} (g : A -> option B) (l : list A) :
  (length (omap g l) ≤ length l)%nat.
Proof. induction l as [|a l IH]; csimpl; [done|]. destruct (g a); simpl; lia. Qed.

(** Two equal candidates in a row count once. *)
Lemma first_occurrences_twice (g : string -> option string) (path : string) rest :
  first_occurrences (omap g (path :: path :: rest))
  = first_occurrences (omap g (path :: rest)).
Proof.
  unfold first_occurrences. csimpl. destruct (g path) as [a|]; [|done].
  cbn [fold_left]. f_equal. unfold keep_first at 1.
  rewrite decide_True; [done|]. apply keep_first_elem. by right.
Qed.

Section DerivationProperties.

Context {bip39 : Bip39} {ethers : Ethers} {ed25519_hd_key : Ed25519HdKey}
        {solana_web3 : SolanaWeb3} {bitcoinjs : BitcoinJs}
        {sui_sdk : SuiSdk} {aptos_sdk : AptosSdk}.

(** X1: deriveSolanaAddresses returns, for every seed and count and whatever the
    packages throw, the first occurrences -- in index order -- of the
    addresses of the paths m/44'/501'/i'/0' (i below count) for which the
    three package calls in the [try] all returned. *)
Theorem solana_sequence seed count w :
  outcome (deriveSolanaAddresses seed count) w
  = Ok (first_occurrences
          (omap (solana_address seed)
             ((fun i => "m/44'/501'/" +:+ number_toString i +:+ "'/0'")
                <$> seqZ 0 count))).
Proof.
  rewrite outcome_eval by auto with framed.
  rewrite deriveSolanaAddresses_reading. unfold DERIVATION_PATHS_solana.
  by rewrite tried_paths_single.
Qed.

(** X2: deriveSuiAddresses always returns: the first occurrences of the
    addresses of its three templates, index by index, template by
    template, a candidate being skipped when a package call throws. *)
Theorem sui_sequence seed count w :
  outcome (deriveSuiAddresses seed count) w
  = Ok (first_occurrences
          (omap (sui_address seed) (tried_paths DERIVATION_PATHS_sui count))).
Proof.
  rewrite outcome_eval by auto with framed. apply deriveSuiAddresses_reading.
Qed.

(** X3: deriveAptosAddresses always returns: the first occurrences of the
    addresses of its two templates, index by index, template by template, a
    candidate being skipped when a package call throws. *)
Theorem aptos_sequence seed count w :
  outcome (deriveAptosAddresses seed count) w
  = Ok (first_occurrences
          (omap (aptos_address seed) (tried_paths DERIVATION_PATHS_aptos count))).
Proof.
  rewrite outcome_eval by auto with framed. apply deriveAptosAddresses_reading.
Qed.

(** X4: deriveBitcoinAddresses throws exactly when [bip32.fromSeed] throws, and
    with that exception; otherwise it returns the first occurrences of the
    non-empty addresses of its two templates, index by index. *)
Theorem bitcoin_sequence seed count w :
  outcome (deriveBitcoinAddresses seed count) w
  = match bip32_fromSeed seed with
    | Ok root =>
        Ok (first_occurrences
              (omap (bitcoin_address root) (tried_paths DERIVATION_PATHS_bitcoin count)))
    | Throw e => Throw e
    end.
Proof.
  rewrite outcome_eval by auto with framed. apply deriveBitcoinAddresses_reading.
Qed.

(** X5: When deriveEVMAddresses returns, every index below count was derived,
    and the result is the first occurrences, in index order, of the
    addresses of those wallets. *)
Theorem evm_sequence seed count w l :
  outcome (deriveEVMAddresses seed count) w = Ok l ->
  ∃ hdNode wallets,
    HDNodeWallet_fromSeed seed = Ok hdNode
    ∧ Forall2 (fun i wallet =>
                 HDNodeWallet_derivePath hdNode
                   ("m/44'/60'/0'/0/" +:+ number_toString i) = Ok wallet)
              (seqZ 0 count) wallets
    ∧ l = first_occurrences (wallet_address <$> wallets).
Proof.
  rewrite outcome_eval by auto with framed. rewrite deriveEVMAddresses_reading.
  destruct (HDNodeWallet_fromSeed seed) as [h|e]; [|done].
  intros (opts & Hopts & ->)%gather_Ok_inv.
  apply evm_addresses_all_ok in Hopts as (wallets & Hall & Hopts).
  exists h, wallets. split_and!; [done| |].
  - by apply Forall2_fmap_l in Hall.
  - unfold first_occurrences. by rewrite Hopts.
Qed.

(** X6: deriveEVMAddresses throws the exception of the least index whose
    derivation throws; the addresses derived before it are lost. *)
Theorem evm_first_failure seed count hdNode i e w :
  HDNodeWallet_fromSeed seed = Ok hdNode ->
  0 ≤ i < count ->
  (∀ j, 0 ≤ j < i ->
        ∃ wallet, HDNodeWallet_derivePath hdNode
                    ("m/44'/60'/0'/0/" +:+ number_toString j) = Ok wallet) ->
  HDNodeWallet_derivePath hdNode ("m/44'/60'/0'/0/" +:+ number_toString i) = Throw e ->
  outcome (deriveEVMAddresses seed count) w = Throw e.
Proof.
  intros Hroot Hi Hbefore Hthrow.
  rewrite outcome_eval by auto with framed.
  rewrite deriveEVMAddresses_eval, Hroot. unfold for_range.
  rewrite (seqZ_split_at i count) by done.
  pose proof (sweep_first_throw DERIVATION_PATHS_evm (evm_candidate hdNode)
                (seqZ 0 i) i (seqZ (i + 1) (count - i - 1)) e
                (evm_candidate_framed hdNode)) as Hsweep.
  unfold sweep in Hsweep. rewrite Hsweep; [done| |].
  - intros j st Hj%elem_of_seqZ. rewrite evm_inner_eval.
    destruct (Hbefore j) as [wallet Hw]; [lia|].
    unfold evm_path. rewrite Hw. eauto.
  - intros st. rewrite evm_inner_eval. unfold evm_path. by rewrite Hthrow.
Qed.

(** X7: deriveStacksAddresses throws the exception of the least index whose
    derivation throws; the entries pushed before it are lost. *)
Theorem stacks_first_failure seed count hdNode i e w :
  HDNodeWallet_fromSeed seed = Ok hdNode ->
  0 ≤ i < count ->
  (∀ j, 0 ≤ j < i ->
        ∃ wallet, HDNodeWallet_derivePath hdNode
                    ("m/44'/5757'/0'/0/" +:+ number_toString j) = Ok wallet) ->
  HDNodeWallet_derivePath hdNode ("m/44'/5757'/0'/0/" +:+ number_toString i) = Throw e ->
  outcome (deriveStacksAddresses seed count) w = Throw e.
Proof.
  intros Hroot Hi Hbefore Hthrow.
  rewrite outcome_eval by auto with framed.
  rewrite deriveStacksAddresses_eval, Hroot. unfold for_range.
  rewrite (seqZ_split_at i count) by done.
  pose proof (sweep_first_throw DERIVATION_PATHS_stacks (stacks_candidate hdNode)
                (seqZ 0 i) i (seqZ (i + 1) (count - i - 1)) e
                (stacks_candidate_framed hdNode)) as Hsweep.
  unfold sweep in Hsweep. rewrite Hsweep; [done| |].
  - intros j st Hj%elem_of_seqZ. rewrite stacks_inner_eval.
    destruct (Hbefore j) as [wallet Hw]; [lia|].
    unfold stacks_path. rewrite Hw. eauto.
  - intros st. rewrite stacks_inner_eval. unfold stacks_path. by rewrite Hthrow.
Qed.

(** X8: No family sequence is longer than the count times the number of the
    family's registered templates. *)
Theorem family_sizes seedPhrase count w s :
  outcome (deriveAddresses seedPhrase count) w = Ok s ->
  ∀ family l templates,
    assoc family s = Some l ->
    assoc family DERIVATION_PATHS = Some templates ->
    (length l ≤ Z.to_nat (default 5%Z count) * length templates)%nat.
Proof.
  rewrite deriveAddresses_outcome.
  intros (_ & evm & solana & bitcoin & stacks & sui & aptos & Hs)%deriveAddresses_inv.
  cbv zeta in Hs. destruct Hs as (Hevm & Hsol & Hbtc & Hstx & Hsui & Hapt & ->).
  intros family l templates Hl Ht.
  apply assoc_family_keys in Hl
    as [[-> ->]|[[-> ->]|[[-> ->]|[[-> ->]|[[-> ->]|[-> ->]]]]]];
    injection Ht as <-.
  - rewrite deriveEVMAddresses_reading in Hevm.
    destruct (HDNodeWallet_fromSeed _); [|done].
    apply gather_Ok_inv in Hevm as (opts & Hopts & ->).
    etrans; [apply (fold_keep_first_length _ [])|].
    etrans; [apply length_omap_le|].
    apply (f_equal length) in Hopts. rewrite !length_fmap, length_seqZ in Hopts.
    simpl. lia.
  - rewrite deriveSolanaAddresses_reading in Hsol. injection Hsol as <-.
    etrans; [apply first_occurrences_length|]. etrans; [apply length_omap_le|].
    by rewrite length_tried_paths.
  - rewrite deriveBitcoinAddresses_reading in Hbtc.
    destruct (bip32_fromSeed _); [|done]. injection Hbtc as <-.
    etrans; [apply first_occurrences_length|]. etrans; [apply length_omap_le|].
    by rewrite length_tried_paths.
  - apply deriveStacksAddresses_spec in Hstx as (h & _ & Hall).
    apply Forall2_length in Hall. rewrite <- Hall, length_seqZ. simpl. lia.
  - rewrite deriveSuiAddresses_reading in Hsui. injection Hsui as <-.
    etrans; [apply first_occurrences_length|]. etrans; [apply length_omap_le|].
    by rewrite length_tried_paths.
  - rewrite deriveAptosAddresses_reading in Hapt. injection Hapt as <-.
    etrans; [apply first_occurrences_length|]. etrans; [apply length_omap_le|].
    by rewrite length_tried_paths.
Qed.

(** X9: At index 0 the first two templates of Sui, and the two templates of
    Aptos, are the same path: for a count of at least 1 the Sui sequence has
    at most 3 * count - 1 entries and the Aptos sequence at most
    2 * count - 1. *)
Theorem sui_and_aptos_share_a_path_at_index_0 seed count w :
  1 ≤ count ->
  ∃ sui aptos,
    outcome (deriveSuiAddresses seed count) w = Ok sui
    ∧ outcome (deriveAptosAddresses seed count) w = Ok aptos
    ∧ (length sui ≤ 3 * Z.to_nat count - 1)%nat
    ∧ (length aptos ≤ 2 * Z.to_nat count - 1)%nat.
Proof.
  intros Hcount. rewrite !outcome_eval by auto with framed.
  rewrite deriveSuiAddresses_reading, deriveAptosAddresses_reading.
  eexists _, _. split_and!; [done..| |].
  - pose proof (length_tried_paths DERIVATION_PATHS_sui count) as Hlen.
    change (length DERIVATION_PATHS_sui) with 3%nat in Hlen.
    unfold tried_paths, candidates in *. rewrite seqZ_cons in * by lia.
    cbn [map concat DERIVATION_PATHS_sui app] in *.
    change ("m/44'/784'/0'/0'/" +:+ number_toString 0 +:+ "'")
      with ("m/44'/784'/" +:+ number_toString 0 +:+ "'/0'/0'") in *.
    rewrite first_occurrences_twice.
    etrans; [apply first_occurrences_length|]. etrans; [apply length_omap_le|].
    cbn [length] in *. lia.
  - pose proof (length_tried_paths DERIVATION_PATHS_aptos count) as Hlen.
    change (length DERIVATION_PATHS_aptos) with 2%nat in Hlen.
    unfold tried_paths, candidates in *. rewrite seqZ_cons in * by lia.
    cbn [map concat DERIVATION_PATHS_aptos app] in *.
    change ("m/44'/637'/0'/0'/" +:+ number_toString 0 +:+ "'")
      with ("m/44'/637'/" +:+ number_toString 0 +:+ "'/0'/0'") in *.
    rewrite first_occurrences_twice.
    etrans; [apply first_occurrences_length|]. etrans; [apply length_omap_le|].
    cbn [length] in *. lia.
Qed.

End DerivationProperties.

(** ** Which payment the Bitcoin loop builds *)

Lemma includes_without_first_char c needle s :
  occurs c s = false -> includes s (String c needle) = false.
Proof.
  induction s as [|a s IH]; [done|]. cbn [occurs includes String.prefix].
  case_decide as Ha; [done|]. intros Hs.
  destruct (ascii_dec c a) as [->|_]; [done|]. by apply IH.
Qed.

Lemma occurs_app c s1 s2 : occurs c (s1 +:+ s2) = occurs c s1 || occurs c s2.
Proof. induction s1 as [|a s1 IH]; [done|]. simpl. by case_decide. Qed.

Lemma pretty_N_char_not_m x : pretty_N_char x ≠ "m"%char.
Proof. unfold pretty_N_char. by repeat case_match. Qed.

Lemma occurs_m_pretty_N_go x s :
  occurs "m" s = false -> occurs "m" (pretty_N_go x s) = false.
Proof.
  revert s. induction (N.lt_wf_0 x) as [x _ IH]; intros s Hs.
  destruct (decide (x = 0)%N) as [->|Hx].
  - by rewrite pretty_N_go_0.
  - rewrite pretty_N_go_step by lia. apply IH.
    + apply N.div_lt; lia.
    + cbn [occurs]. by rewrite decide_False by apply pretty_N_char_not_m.
Qed.

Lemma occurs_m_number_toString (i : Z) : occurs "m" (number_toString i) = false.
Proof.
  assert (∀ p : positive, occurs "m" (pretty p) = false) as Hpos.
  { intros p. unfold pretty, pretty_positive, pretty, pretty_N.
    case_decide; [done|]. by apply occurs_m_pretty_N_go. }
  unfold number_toString, pretty, pretty_Z. destruct i as [|p|p]; [done|auto|].
  rewrite occurs_app. by rewrite Hpos.
Qed.

Lemma segwit_path_includes (i : Z) :
  includes ("m/84'/0'/0'/0/" +:+ number_toString i) "m/84'" = true.
Proof. reflexivity. Qed.

Lemma legacy_path_includes (i : Z) :
  includes ("m/44'/0'/0'/0/" +:+ number_toString i) "m/84'" = false
  ∧ includes ("m/44'/0'/0'/0/" +:+ number_toString i) "m/49'" = false.
Proof.
  pose proof (includes_without_first_char "m" "/84'" _ (occurs_m_number_toString i)).
  pose proof (includes_without_first_char "m" "/49'" _ (occurs_m_number_toString i)).
  split; simpl; done.
Qed.

Lemma truthy_Some a : truthy (Some a) = true ↔ a ≠ "".
Proof. destruct a; simpl; split; done. Qed.

Section BitcoinKinds.

Context {bitcoinjs : BitcoinJs}.

Lemma bitcoin_address_payment root path a :
  bitcoin_address root path = Some a
  ↔ a ≠ "" ∧ ∃ child payment,
      bip32_derivePath root path = Ok child
      ∧ bitcoin_payment child path = Ok payment
      ∧ payment_address payment = Some a.
Proof.
  unfold bitcoin_address. split.
  - destruct (bip32_derivePath root path) as [child|] eqn:Hchild; [|done].
    destruct (bitcoin_payment child path) as [payment|] eqn:Hpayment; [|done].
    destruct (truthy (payment_address payment)) eqn:Htruthy; [|done].
    intros Ha. rewrite Ha in Htruthy. apply truthy_Some in Htruthy.
    split; [done|]. by exists child, payment.
  - intros (Ha & child & payment & -> & -> & Haddr). rewrite Haddr.
    by rewrite (proj2 (truthy_Some a) Ha).
Qed.

Lemma bitcoin_address_segwit root i a :
  bitcoin_address root ("m/84'/0'/0'/0/" +:+ number_toString i) = Some a
  ↔ a ≠ "" ∧ segwit_address root ("m/84'/0'/0'/0/" +:+ number_toString i) a.
Proof.
  rewrite bitcoin_address_payment. unfold segwit_address, bitcoin_payment.
  by rewrite segwit_path_includes.
Qed.

Lemma bitcoin_address_legacy root i a :
  bitcoin_address root ("m/44'/0'/0'/0/" +:+ number_toString i) = Some a
  ↔ a ≠ "" ∧ legacy_address root ("m/44'/0'/0'/0/" +:+ number_toString i) a.
Proof.
  rewrite bitcoin_address_payment. unfold legacy_address, bitcoin_payment.
  destruct (legacy_path_includes i) as [-> ->]. done.
Qed.

(** X10: The members of the Bitcoin sequence: the non-empty P2WPKH addresses at
    m/84'/0'/0'/0/i and the non-empty P2PKH addresses at m/44'/0'/0'/0/i,
    for i below count, each once.  The P2SH branch of the loop (paths with
    m/49') is never taken. *)
Theorem bitcoin_sequence_members seed count w l :
  outcome (deriveBitcoinAddresses seed count) w = Ok l ->
  ∃ root,
    bip32_fromSeed seed = Ok root
    ∧ NoDup l
    ∧ ∀ a, a ∈ l ↔
        a ≠ "" ∧ ∃ i, 0 ≤ i < count
          ∧ (segwit_address root ("m/84'/0'/0'/0/" +:+ number_toString i) a
             ∨ legacy_address root ("m/44'/0'/0'/0/" +:+ number_toString i) a).
Proof.
  rewrite outcome_eval by auto with framed.
  rewrite deriveBitcoinAddresses_reading.
  destruct (bip32_fromSeed seed) as [root|e]; [|done]. intros [= <-].
  exists root. split_and!; [done|apply first_occurrences_NoDup|].
  intros a. rewrite first_occurrences_elem, list_elem_of_omap.
  unfold tried_paths. setoid_rewrite elem_of_candidates. split.
  - intros (path & (i & p & Hi%elem_of_seqZ & Hp & ->) & Ha).
    unfold DERIVATION_PATHS_bitcoin in Hp.
    apply elem_of_cons in Hp as [->|Hp];
      [|apply elem_of_cons in Hp as [->|Hp]; [|by apply elem_of_nil in Hp]].
    + apply bitcoin_address_segwit in Ha as [Hne Hseg].
      split; [done|]. exists i. split; [lia|by left].
    + apply bitcoin_address_legacy in Ha as [Hne Hleg].
      split; [done|]. exists i. split; [lia|by right].
  - intros (Hne & i & Hi & [Hseg|Hleg]).
    + exists ("m/84'/0'/0'/0/" +:+ number_toString i). split.
      * exists i, (fun index => "m/84'/0'/0'/0/" +:+ number_toString index).
        split_and!; [apply elem_of_seqZ; lia| |done].
        unfold DERIVATION_PATHS_bitcoin. by left.
      * by apply bitcoin_address_segwit.
    + exists ("m/44'/0'/0'/0/" +:+ number_toString i). split.
      * exists i, (fun index => "m/44'/0'/0'/0/" +:+ number_toString index).
        split_and!; [apply elem_of_seqZ; lia| |done].
        unfold DERIVATION_PATHS_bitcoin. right. by left.
      * by apply bitcoin_address_legacy.
Qed.

End BitcoinKinds.

(** ** What is written to the console *)

Lemma console_lines_app w1 w2 :
  console_lines (w1 ++ w2) = console_lines w1 ++ console_lines w2.
Proof. apply omap_app. Qed.

Lemma world_after_trace {A} (m : M A) w :
  framed m -> world_after m w = w ++ trace m.
Proof. intros Hm. unfold world_after at 1. by rewrite (framed_run m w Hm). Qed.

Lemma trace_bind {A B} (m : M A) (k : A -> M B) :
  framed m -> (∀ a, framed (k a)) ->
  trace (bind m k)
  = trace m ++ match eval m with
               | Ok a => trace (k a)
               | Throw _ => []
               end.
Proof.
  intros Hm Hk. unfold trace at 1, world_after, bind.
  rewrite (framed_run m [] Hm). fold (trace m) (eval m). cbn [app].
  destruct (eval m) as [a|e].
  - rewrite (framed_run (k a) _ (Hk a)). done.
  - cbn. by rewrite app_nil_r.
Qed.

Lemma trace_try_catch {A} (m : M A) (h : exn -> M A) :
  framed m -> (∀ e, framed (h e)) ->
  trace (try_catch m h)
  = trace m ++ match eval m with
               | Ok _ => []
               | Throw e => trace (h e)
               end.
Proof.
  intros Hm Hh. unfold trace at 1, world_after, try_catch.
  rewrite (framed_run m [] Hm). fold (trace m) (eval m). cbn [app].
  destruct (eval m) as [a|e].
  - cbn. by rewrite app_nil_r.
  - rewrite (framed_run (h e) _ (Hh e)). done.
Qed.

Lemma silent_ret {A} (a : A) : silent (ret a).
Proof. split; [apply framed_ret|done]. Qed.

Lemma silent_throw {A} e : silent (@throw A e).
Proof. split; [apply framed_throw|done]. Qed.

Lemma silent_call {A} p f a (r : result A) : silent (call p f a r).
Proof. split; [apply framed_call|done]. Qed.

Lemma silent_bind {A B} (m : M A) (k : A -> M B) :
  silent m -> (∀ a, silent (k a)) -> silent (bind m k).
Proof.
  intros [Hm Hquiet] Hk. split.
  - apply framed_bind; [done|]. intros a. apply Hk.
  - rewrite trace_bind by (done || intros; apply Hk).
    rewrite console_lines_app, Hquiet. destruct (eval m) as [a|e]; [|done].
    apply Hk.
Qed.

Lemma silent_try_catch {A} (m : M A) (h : exn -> M A) :
  silent m -> (∀ e, silent (h e)) -> silent (try_catch m h).
Proof.
  intros [Hm Hquiet] Hh. split.
  - apply framed_try_catch; [done|]. intros e. apply Hh.
  - rewrite trace_try_catch by (done || intros; apply Hh).
    rewrite console_lines_app, Hquiet. destruct (eval m) as [a|e]; [done|].
    apply Hh.
Qed.

Lemma silent_for_of {X S} (xs : list X) (body : X -> S -> M S) :
  (∀ x s, silent (body x s)) -> ∀ s, silent (for_of xs body s).
Proof.
  intros Hbody. induction xs as [|x xs IH]; intros s; cbn [for_of].
  - apply silent_ret.
  - by apply silent_bind.
Qed.

Lemma silent_for_range {S} count (body : Z -> S -> M S) :
  (∀ i s, silent (body i s)) -> ∀ s, silent (for_range count body s).
Proof. intros. by apply silent_for_of. Qed.

Create HintDb silent discriminated.
#[export] Hint Resolve silent_ret silent_throw silent_call : silent.

(** Decomposes a silence goal along the structure of the program. *)
Ltac silent_step :=
  match goal with
  | |- silent (bind _ _) => apply silent_bind; [| intros ?]
  | |- silent (try_catch _ _) => apply silent_try_catch; [| intros ?]
  | |- silent (for_range _ _ _) => apply silent_for_range; intros ? ?
  | |- silent (for_of _ _ _) => apply silent_for_of; intros ? ?
  | |- silent (let _ := _ in _) => cbv zeta
  | |- silent (if ?b then _ else _) => destruct b
  | |- silent (match ?x with _ => _ end) => destruct x
  | |- silent _ => solve [auto with silent]
  end.
Ltac solve_silent := repeat silent_step.

Lemma silent_console {A} (m : M A) w :
  silent m -> console_lines (world_after m w) = console_lines w.
Proof.
  intros [Hm Hquiet]. rewrite world_after_trace by done.
  by rewrite console_lines_app, Hquiet, app_nil_r.
Qed.

Section Console.

Context {bip39 : Bip39} {ethers : Ethers} {ed25519_hd_key : Ed25519HdKey}
        {solana_web3 : SolanaWeb3} {bitcoinjs : BitcoinJs}
        {sui_sdk : SuiSdk} {aptos_sdk : AptosSdk}.

Lemma deriveEVMAddresses_silent seed count : silent (deriveEVMAddresses seed count).
Proof. unfold deriveEVMAddresses. solve_silent. Qed.
Lemma deriveSolanaAddresses_silent seed count : silent (deriveSolanaAddresses seed count).
Proof. unfold deriveSolanaAddresses. solve_silent. Qed.
Lemma deriveBitcoinAddresses_silent seed count : silent (deriveBitcoinAddresses seed count).
Proof. unfold deriveBitcoinAddresses. solve_silent. Qed.
Lemma deriveSuiAddresses_silent seed count : silent (deriveSuiAddresses seed count).
Proof. unfold deriveSuiAddresses. solve_silent. Qed.
Lemma deriveAptosAddresses_silent seed count : silent (deriveAptosAddresses seed count).
Proof. unfold deriveAptosAddresses. solve_silent. Qed.

Lemma derivePrivateKey_silent seedPhrase chain index :
  silent (derivePrivateKey seedPhrase chain index).
Proof.
  unfold derivePrivateKey, apply_value. cbv zeta.
  apply silent_bind; [auto with silent|]. intros seed. solve_silent.
Qed.

(** The Stacks function prints its warning when, and only when, it
    returns. *)
Lemma deriveStacksAddresses_console seed count :
  console_lines (trace (deriveStacksAddresses seed count))
  = match eval (deriveStacksAddresses seed count) with
    | Ok _ => [stacks_warning_line]
    | Throw _ => []
    end.
Proof.
  unfold deriveStacksAddresses.
  rewrite trace_bind by (intros; solve_framed). rewrite eval_bind by (intros; solve_framed).
  rewrite console_lines_app. rewrite eval_call.
  destruct (HDNodeWallet_fromSeed seed) as [hdNode|e]; [|done]. cbn [app].
  set (loop := for_range count _ []).
  assert (silent loop) as [Hloop Hquiet] by (unfold loop; solve_silent).
  rewrite trace_bind by (done || intros; solve_framed).
  rewrite eval_bind by (intros; solve_framed).
  rewrite console_lines_app, Hquiet. destruct (eval loop) as [l|e]; [|done].
  rewrite trace_bind by (intros; solve_framed).
  rewrite eval_bind by (intros; solve_framed). done.
Qed.

End Console.

Lemma console_bind {A B} (m : M A) (k : A -> M B) :
  framed m -> (∀ a, framed (k a)) ->
  console_lines (trace (bind m k))
  = console_lines (trace m)
    ++ match eval m with
       | Ok a => console_lines (trace (k a))
       | Throw _ => []
       end.
Proof.
  intros Hm Hk. rewrite trace_bind, console_lines_app by done.
  by destruct (eval m).
Qed.

Lemma console_bind_silent {A B} (m : M A) (k : A -> M B) :
  silent m -> (∀ a, framed (k a)) ->
  console_lines (trace (bind m k))
  = match eval m with
    | Ok a => console_lines (trace (k a))
    | Throw _ => []
    end.
Proof. intros [Hm Hquiet] Hk. by rewrite console_bind, Hquiet. Qed.

Section ConsoleProperties.

Context {bip39 : Bip39} {ethers : Ethers} {ed25519_hd_key : Ed25519HdKey}
        {solana_web3 : SolanaWeb3} {bitcoinjs : BitcoinJs}
        {sui_sdk : SuiSdk} {aptos_sdk : AptosSdk}.

(** What [deriveAddresses] prints: nothing for an invalid mnemonic, else the
    banner, followed by the Stacks warning once the EVM, Solana, Bitcoin and
    Stacks functions have returned. *)
Lemma deriveAddresses_console seedPhrase count :
  console_lines (trace (deriveAddresses seedPhrase count))
  = if validateMnemonic seedPhrase then
      let seed := mnemonicToSeedSync seedPhrase in
      let n := default 5 count in
      banner_line ::
        match eval (deriveEVMAddresses seed n), eval (deriveSolanaAddresses seed n),
              eval (deriveBitcoinAddresses seed n), eval (deriveStacksAddresses seed n)
        with
        | Ok _, Ok _, Ok _, Ok _ => [stacks_warning_line]
        | _, _, _, _ => []
        end
    else [].
Proof.
  unfold deriveAddresses. cbv zeta.
  rewrite console_bind_silent by (auto with silent || intros; solve_framed).
  rewrite eval_call. destruct (validateMnemonic seedPhrase); [|done]. cbn [negb].
  rewrite console_bind_silent by (auto with silent || intros; solve_framed).
  rewrite eval_call.
  rewrite console_bind by (intros; solve_framed). rewrite eval_log.
  change (console_lines (trace (log _))) with [banner_line]. cbn [app]. f_equal.
  rewrite console_bind_silent
    by (apply deriveEVMAddresses_silent || intros; solve_framed).
  destruct (eval (deriveEVMAddresses _ _)) as [evm|]; [|done].
  rewrite console_bind_silent
    by (apply deriveSolanaAddresses_silent || intros; solve_framed).
  destruct (eval (deriveSolanaAddresses _ _)) as [solana|]; [|done].
  rewrite console_bind_silent
    by (apply deriveBitcoinAddresses_silent || intros; solve_framed).
  destruct (eval (deriveBitcoinAddresses _ _)) as [bitcoin|]; [|done].
  rewrite console_bind by (auto with framed || intros; solve_framed).
  rewrite deriveStacksAddresses_console.
  destruct (eval (deriveStacksAddresses _ _)) as [stacks|]; [|done].
  rewrite console_bind_silent
    by (apply deriveSuiAddresses_silent || intros; solve_framed).
  destruct (eval (deriveSuiAddresses _ _)) as [sui|]; [|done].
  rewrite console_bind_silent
    by (apply deriveAptosAddresses_silent || intros; solve_framed).
  by destruct (eval (deriveAptosAddresses _ _)).
Qed.

(** X11: deriveAddresses prints at most two lines, both fixed texts: the banner
    and the Stacks warning -- exactly these two when it returns.  No
    mnemonic, seed, key or address is ever printed. *)
Theorem deriveAddresses_prints_two_fixed_lines seedPhrase count w :
  (∃ lines, lines `prefix_of` [banner_line; stacks_warning_line]
            ∧ console_lines (world_after (deriveAddresses seedPhrase count) w)
              = console_lines w ++ lines)
  ∧ ∀ s, outcome (deriveAddresses seedPhrase count) w = Ok s ->
         console_lines (world_after (deriveAddresses seedPhrase count) w)
         = console_lines w ++ [banner_line; stacks_warning_line].
Proof.
  rewrite world_after_trace, console_lines_app by auto with framed.
  rewrite deriveAddresses_outcome, deriveAddresses_console, deriveAddresses_eval.
  cbv zeta. destruct (validateMnemonic seedPhrase).
  - destruct (eval (deriveEVMAddresses _ _)) as [evm|];
      [destruct (eval (deriveSolanaAddresses _ _)) as [solana|];
       [destruct (eval (deriveBitcoinAddresses _ _)) as [bitcoin|];
        [destruct (eval (deriveStacksAddresses _ _)) as [stacks|]|]|]|];
      (split; [|done]); eexists; (split; [|reflexivity]);
      (done || by apply prefix_cons, prefix_nil).
  - split; [|done]. exists []. split; [apply prefix_nil|done].
Qed.

(** X12: derivePrivateKey returns for no argument at all: it throws for every
    mnemonic, family name and index -- and it never prints. *)
Theorem derivePrivateKey_never_returns seedPhrase chain index w :
  (∃ e, outcome (derivePrivateKey seedPhrase chain index) w = Throw e)
  ∧ console_lines (world_after (derivePrivateKey seedPhrase chain index) w)
    = console_lines w.
Proof.
  split; [|apply silent_console, derivePrivateKey_silent].
  unfold outcome, derivePrivateKey, bind, call, throw, apply_value. cbn [fst snd].
  repeat case_bool_decide; subst; cbn;
    try destruct (HDNodeWallet_fromSeed _); cbn; eauto.
Qed.

(** X13: For solana, sui and aptos the exception of derivePrivateKey is the
    TypeError of calling the array [DERIVATION_PATHS[chain]]; for evm and
    stacks it is the same TypeError once [HDNodeWallet.fromSeed] has
    returned. *)
Theorem derivePrivateKey_calls_the_template_array seedPhrase chain index w :
  chain ∈ ["evm"; "stacks"; "solana"; "sui"; "aptos"] ->
  (chain ∈ ["evm"; "stacks"] ->
   ∃ hdNode, HDNodeWallet_fromSeed (mnemonicToSeedSync seedPhrase) = Ok hdNode) ->
  outcome (derivePrivateKey seedPhrase chain index) w
  = Throw (JsTypeError "DERIVATION_PATHS[chain] is not a function").
Proof.
  intros Hchain Hroot.
  unfold outcome, derivePrivateKey, bind, call, throw, apply_value. cbn [fst snd].
  repeat (apply elem_of_cons in Hchain as [->|Hchain]);
    [..|by apply elem_of_nil in Hchain]; cbn.
  - destruct Hroot as [h ->]; [by left|done].
  - destruct Hroot as [h ->]; [right; by left|done].
  - done.
  - done.
  - done.
Qed.

End ConsoleProperties.

(** ** The path templates *)

Lemma string_length_app (s1 s2 : string) :
  String.length (s1 +:+ s2) = (String.length s1 + String.length s2)%nat.
Proof. induction s1 as [|a s1 IH]; simpl; [done|]. by rewrite IH. Qed.

Lemma string_app_inj_r (s1 s2 t : string) : s1 +:+ t = s2 +:+ t -> s1 = s2.
Proof.
  revert s2. induction s1 as [|a s1 IH]; intros [|b s2] Heq.
  - done.
  - apply (f_equal String.length) in Heq.
    rewrite !string_length_app in Heq. simpl in Heq. lia.
  - apply (f_equal String.length) in Heq.
    rewrite !string_length_app in Heq. simpl in Heq. lia.
  - injection Heq as -> Heq. f_equal. by apply IH.
Qed.

(** X14: Every registered template sends distinct indices to distinct paths,
    for indices that are safe integers (below 2^53 in absolute value, where
    the template prints the decimal numeral): no template derives the same
    path twice. *)
Theorem path_templates_are_injective family templates (pathFn : PathFn) i j :
  assoc family DERIVATION_PATHS = Some templates ->
  pathFn ∈ templates ->
  - 2 ^ 53 < i < 2 ^ 53 ->
  - 2 ^ 53 < j < 2 ^ 53 ->
  pathFn i = pathFn j ->
  i = j.
Proof.
  unfold DERIVATION_PATHS. cbn [assoc].
  repeat case_decide; intros [= <-]; intros Hin _ _;
    repeat (apply elem_of_cons in Hin as [->|Hin]);
    try (by apply elem_of_nil in Hin);
    intros Heq; apply (inj (String.app _)) in Heq;
    try apply string_app_inj_r in Heq;
    by apply (inj pretty) in Heq.
Qed.

Lemma path_templates_are_injective_witness :
  assoc "sui" DERIVATION_PATHS = Some DERIVATION_PATHS_sui
  ∧ (fun index : Z => "m/44'/784'/0'/0/" +:+ number_toString index) ∈ DERIVATION_PATHS_sui
  ∧ - 2 ^ 53 < 7 < 2 ^ 53
  ∧ (fun index : Z => "m/44'/784'/0'/0/" +:+ number_toString index) 7
    = (fun index : Z => "m/44'/784'/0'/0/" +:+ number_toString index) 7
  ∧ 7 = 7.
Proof.
  assert ((fun index : Z => "m/44'/784'/0'/0/" +:+ number_toString index)
            ∈ DERIVATION_PATHS_sui) as Hin.
  { unfold DERIVATION_PATHS_sui. right. right. by left. }
  assert (- 2 ^ 53 < 7 < 2 ^ 53) as Hsafe by lia.
  refine (conj eq_refl (conj Hin (conj Hsafe (conj eq_refl _)))).
  exact (path_templates_are_injective "sui" DERIVATION_PATHS_sui _ 7 7
           eq_refl Hin Hsafe Hsafe eq_refl).
Defined.

(** ** The family properties on concrete runs *)

Lemma evm_sequence_witness :
  ∃ l,
    outcome (deriveEVMAddresses (ethers := ethers_plain) test_seed 3) [] = Ok l
    ∧ ∃ hdNode wallets,
        HDNodeWallet_fromSeed (Ethers := ethers_plain) test_seed = Ok hdNode
        ∧ Forall2 (fun i wallet =>
                     HDNodeWallet_derivePath (Ethers := ethers_plain) hdNode
                       ("m/44'/60'/0'/0/" +:+ number_toString i) = Ok wallet)
                  (seqZ 0 3) wallets
        ∧ l = first_occurrences (wallet_address (Ethers := ethers_plain) <$> wallets).
Proof.
  eexists. split; [vm_compute; reflexivity|].
  apply (evm_sequence (ethers := ethers_plain) test_seed 3 []).
  vm_compute. reflexivity.
Defined.

Lemma evm_first_failure_witness :
  0 ≤ 1 < 3
  ∧ outcome (deriveEVMAddresses (ethers := ethers_failing) test_seed 3) []
    = Throw (JsError "invalid path index").
Proof.
  split; [lia|].
  apply (evm_first_failure (ethers := ethers_failing) test_seed 3 "m" 1
           (JsError "invalid path index") []); [reflexivity|lia| |reflexivity].
  intros j Hj. assert (j = 0) as -> by lia. eexists. reflexivity.
Defined.

Lemma stacks_first_failure_witness :
  0 ≤ 1 < 3
  ∧ outcome (deriveStacksAddresses (ethers := ethers_failing_stacks) test_seed 3) []
    = Throw (JsError "invalid path index").
Proof.
  split; [lia|].
  apply (stacks_first_failure (ethers := ethers_failing_stacks) test_seed 3 "m" 1
           (JsError "invalid path index") []); [reflexivity|lia| |reflexivity].
  intros j Hj. assert (j = 0) as -> by lia. eexists. reflexivity.
Defined.

Lemma family_sizes_witness :
  ∃ s,
    outcome (run_deriveAddresses ethers_plain test_mnemonic (Some 2)) [] = Ok s
    ∧ ∀ family l templates,
        assoc family s = Some l ->
        assoc family DERIVATION_PATHS = Some templates ->
        (length l ≤ Z.to_nat (default 5%Z (Some 2%Z)) * length templates)%nat.
Proof.
  eexists. split; [vm_compute; reflexivity|].
  apply (@family_sizes bip39 ethers_plain ed25519_hd_key solana_web3 bitcoinjs
           sui_sdk aptos_sdk test_mnemonic (Some 2) []).
  vm_compute. reflexivity.
Defined.

Lemma sui_and_aptos_share_a_path_at_index_0_witness :
  1 ≤ 2
  ∧ ∃ sui aptos,
      outcome (deriveSuiAddresses (ed25519_hd_key := ed25519_hd_key)
                 (sui_sdk := sui_sdk) test_seed 2) [] = Ok sui
      ∧ outcome (deriveAptosAddresses (ed25519_hd_key := ed25519_hd_key)
                   (aptos_sdk := aptos_sdk) test_seed 2) [] = Ok aptos
      ∧ (length sui ≤ 3 * Z.to_nat 2 - 1)%nat
      ∧ (length aptos ≤ 2 * Z.to_nat 2 - 1)%nat.
Proof.
  assert (1 ≤ 2) as Hle by lia. split; [exact Hle|].
  exact (sui_and_aptos_share_a_path_at_index_0 (ed25519_hd_key := ed25519_hd_key)
           (sui_sdk := sui_sdk) (aptos_sdk := aptos_sdk) test_seed 2 [] Hle).
Defined.

Lemma bitcoin_sequence_members_witness :
  ∃ l,
    outcome (deriveBitcoinAddresses (bitcoinjs := bitcoinjs) test_seed 2) [] = Ok l
    ∧ ∃ root,
        bip32_fromSeed (BitcoinJs := bitcoinjs) test_seed = Ok root
        ∧ NoDup l
        ∧ ∀ a, a ∈ l ↔
            a ≠ "" ∧ ∃ i, 0 ≤ i < 2
              ∧ (segwit_address (bitcoinjs := bitcoinjs) root
                   ("m/84'/0'/0'/0/" +:+ number_toString i) a
                 ∨ legacy_address (bitcoinjs := bitcoinjs) root
                     ("m/44'/0'/0'/0/" +:+ number_toString i) a).
Proof.
  eexists. split; [vm_compute; reflexivity|].
  apply (bitcoin_sequence_members (bitcoinjs := bitcoinjs) test_seed 2 []).
  vm_compute. reflexivity.
Defined.

Lemma derivePrivateKey_calls_the_template_array_witness :
  "solana" ∈ ["evm"; "stacks"; "solana"; "sui"; "aptos"]
  ∧ outcome (run_derivePrivateKey ethers_plain test_mnemonic "solana" None) []
    = Throw (JsTypeError "DERIVATION_PATHS[chain] is not a function").
Proof.
  assert ("solana" ∈ ["evm"; "stacks"; "solana"; "sui"; "aptos"]) as Hin.
  { right. right. by left. }
  split; [exact Hin|].
  apply (@derivePrivateKey_calls_the_template_array bip39 ethers_plain ed25519_hd_key
           test_mnemonic "solana" None [] Hin).
  intros _. by exists "m".
Defined.

(** ** The retry loops *)

Lemma sleep_run ms w : sleep ms w = (w ++ [waited ms], Ok tt).
Proof. done. Qed.

Lemma framed_sleep ms : framed (sleep ms).
Proof. apply framed_call. Qed.

Lemma framed_console_error line : framed (console_error line).
Proof. apply framed_call. Qed.

Lemma seqZ_succ m n : 0 < n -> seqZ m n = m :: seqZ (m + 1) (n - 1).
Proof.
  intros Hn. by rewrite seqZ_cons by lia.
Qed.

Section RetryLoop.

Context {A : Type}.

Lemma attempt_ok (fn : M A) wait i w w' a :
  fn w = (w', Ok a) -> attempt fn wait i w = (w', Ok (Return a)).
Proof. intros Hfn. unfold attempt, try_catch, bind. by rewrite Hfn. Qed.

Lemma attempt_rethrows (fn : M A) wait i w w' e :
  fn w = (w', Throw e) -> wait i e = None ->
  attempt fn wait i w = (w', Throw e).
Proof. intros Hfn Hw. unfold attempt, try_catch, bind. by rewrite Hfn, Hw. Qed.

Lemma attempt_waits (fn : M A) wait i w w' e ms :
  fn w = (w', Throw e) -> wait i e = Some ms ->
  attempt fn wait i w = (w' ++ [waited ms], Ok Continue).
Proof. intros Hfn Hw. unfold attempt, try_catch, bind. by rewrite Hfn, Hw. Qed.

(** What a loop of attempts hands on was produced by an attempt, and
    when the last iteration rethrows every error the loop does not run out. *)
Lemma attempts_hand_on (fn : M A) wait (n : Z) :
  (∀ e, wait (n - 1) e = None) ->
  ∀ (len : nat) j w, j + Z.of_nat len = n -> (0 < len)%nat ->
    match outcome (for_of_returning (seqZ j (Z.of_nat len)) (attempt fn wait)) w with
    | Ok (Some a) => ∃ w', outcome fn w' = Ok a
    | Ok None => False
    | Throw e => ∃ w', outcome fn w' = Throw e
    end.
Proof.
  intros Hlast. induction len as [|len IH]; intros j w Hj Hlen; [lia|].
  rewrite seqZ_succ by lia. cbn [for_of_returning]. unfold outcome, bind.
  destruct (fn w) as [w' [a|e]] eqn:Hfn.
  - rewrite (attempt_ok _ _ _ _ _ _ Hfn). cbn. exists w.
    unfold outcome. by rewrite Hfn.
  - destruct (wait j e) as [ms|] eqn:Hw.
    + rewrite (attempt_waits _ _ _ _ _ _ _ Hfn Hw).
      destruct len as [|len'].
      { replace j with (n - 1) in Hw by lia. by rewrite Hlast in Hw. }
      replace (Z.of_nat (S (S len')) - 1) with (Z.of_nat (S len')) by lia.
      apply (IH (j + 1) (w' ++ [waited ms])); lia.
    + rewrite (attempt_rethrows _ _ _ _ _ _ Hfn Hw). cbn. exists w.
      unfold outcome. by rewrite Hfn.
Qed.

Lemma always_fails_run (fn : M A) e w :
  always_fails fn e -> fn w = (w ++ trace fn, Throw e).
Proof.
  intros [Hfr He]. rewrite (framed_run fn w Hfr). by fold (eval fn); rewrite He.
Qed.

(** The attempts against a request that always fails: an attempt and a
    wait per index, then the attempt that gives up. *)
Lemma attempts_give_up (fn : M A) wait e (n : Z) (pause : Z -> Z) :
  always_fails fn e ->
  wait (n - 1) e = None ->
  (∀ i, 0 ≤ i < n - 1 -> wait i e = Some (pause i)) ->
  ∀ (len : nat) j w, 0 ≤ j -> j + Z.of_nat len = n - 1 ->
    for_of_returning (seqZ j (Z.of_nat len + 1)) (attempt fn wait) w
    = (w ++ concat ((fun i => trace fn ++ [waited (pause i)]) <$> seqZ j (Z.of_nat len))
         ++ trace fn,
       Throw e).
Proof.
  intros Hfn Hlast Hwait. induction len as [|len IH]; intros j w Hj0 Hj.
  - change (Z.of_nat 0 + 1) with 1. change (Z.of_nat 0) with 0.
    rewrite seqZ_succ by lia. cbn [for_of_returning]. unfold bind.
    rewrite (attempt_rethrows fn wait j w _ e (always_fails_run _ _ _ Hfn))
      by (by replace j with (n - 1) by lia).
    by rewrite seqZ_nil by lia.
  - rewrite (seqZ_succ j (Z.of_nat (S len) + 1)) by lia.
    rewrite (seqZ_succ j (Z.of_nat (S len))) by lia.
    cbn [for_of_returning]. unfold bind.
    rewrite (attempt_waits fn wait j w _ e (pause j) (always_fails_run _ _ _ Hfn))
      by (apply Hwait; lia).
    replace (Z.of_nat (S len) + 1 - 1) with (Z.of_nat len + 1) by lia.
    replace (Z.of_nat (S len) - 1) with (Z.of_nat len) by lia.
    rewrite IH by lia. cbn [fmap list_fmap concat]. f_equal.
    by rewrite <- !(assoc_L (++)).
Qed.

End RetryLoop.

Lemma for_of_returning_ext {X R} (xs : list X) (body body' : X -> M (Control R)) :
  (∀ x w, body x w = body' x w) ->
  ∀ w, for_of_returning xs body w = for_of_returning xs body' w.
Proof.
  intros Hbody. induction xs as [|x xs IH]; intros w; [done|].
  cbn [for_of_returning]. unfold bind. rewrite Hbody.
  destruct (body' x w) as [w' [[v|]|e]]; auto.
Qed.

Lemma for_of_returning_nil {X R} (body : X -> M (Control R)) w :
  for_of_returning [] body w = (w, Ok None).
Proof. done. Qed.

Lemma bitcoin_retryRequest_attempts {A} (fn : M A) maxRetries w :
  bitcoin_checker.retryRequest fn maxRetries w
  = for_of_returning (seqZ 0 (default 3 maxRetries))
      (attempt fn (bitcoin_wait (default 3 maxRetries))) w.
Proof.
  unfold bitcoin_checker.retryRequest. cbv zeta.
  apply for_of_returning_ext. intros i w'.
  unfold attempt, bitcoin_wait, try_catch.
  destruct (bind fn _ w') as [w'' [c|e]]; [done|]. by destruct (decide _).
Qed.

Lemma evm_retryRequest_attempts {error_fields : ErrorFields} {A} (fn : M A)
    maxRetries delay w :
  evm_checker.retryRequest fn maxRetries delay w
  = for_of_returning (seqZ 0 (default 2 maxRetries))
      (attempt fn (evm_wait (default 2 maxRetries) (default 800 delay))) w.
Proof.
  unfold evm_checker.retryRequest. cbv zeta.
  apply for_of_returning_ext. intros i w'.
  unfold attempt, evm_wait, try_catch.
  destruct (bind fn _ w') as [w'' [c|e]]; [done|].
  destruct (decide _); [done|]. by destruct (evm_checker.not_retried e).
Qed.

Lemma bitcoin_retryRequest_hands_on {A} (fn : M A) maxRetries w :
  1 ≤ default 3 maxRetries ->
  match outcome (bitcoin_checker.retryRequest fn maxRetries) w with
  | Ok (Some a) => ∃ w', outcome fn w' = Ok a
  | Ok None => False
  | Throw e => ∃ w', outcome fn w' = Throw e
  end.
Proof.
  intros Hn. unfold outcome at 1. rewrite bitcoin_retryRequest_attempts.
  set (n := default 3 maxRetries) in *.
  pose proof (attempts_hand_on fn (bitcoin_wait n) n) as Hhand.
  specialize (Hhand ltac:(intros e; unfold bitcoin_wait; by rewrite decide_True)).
  specialize (Hhand (Z.to_nat n) 0 w ltac:(lia) ltac:(lia)).
  by replace (Z.of_nat (Z.to_nat n)) with n in Hhand by lia.
Qed.

Lemma bitcoin_retryRequest_fails {A} (fn : M A) e maxRetries w :
  framed fn -> eval fn = Throw e -> 1 ≤ default 3 maxRetries ->
  bitcoin_checker.retryRequest fn maxRetries w
  = (w ++ concat ((fun i => trace fn ++ [waited (2000 * (i + 1))])
                    <$> seqZ 0 (default 3 maxRetries - 1))
       ++ trace fn,
     Throw e).
Proof.
  intros Hfr He Hn. rewrite bitcoin_retryRequest_attempts.
  set (n := default 3 maxRetries) in *.
  pose proof (attempts_give_up fn (bitcoin_wait n) e n (fun i => 2000 * (i + 1))
                (conj Hfr He)) as Hgive.
  specialize (Hgive ltac:(unfold bitcoin_wait; by rewrite decide_True)).
  specialize (Hgive ltac:(intros i Hi; unfold bitcoin_wait;
                          by rewrite decide_False by lia)).
  specialize (Hgive (Z.to_nat (n - 1)) 0 w ltac:(lia) ltac:(lia)).
  by replace (Z.of_nat (Z.to_nat (n - 1)) + 1) with n in Hgive by lia;
     replace (Z.of_nat (Z.to_nat (n - 1))) with (n - 1) in Hgive by lia.
Qed.

Section RetryProperties.

Context {error_fields : ErrorFields} {A : Type}.

(** X15: with a [maxRetries] of zero or less, neither retry wrapper
    calls [fn]: both resolve to [undefined] and leave the world as it
    was. *)
Theorem retryRequest_without_attempts (fn : M A) (n : Z) delay w :
  n ≤ 0 ->
  bitcoin_checker.retryRequest fn (Some n) w = (w, Ok None)
  ∧ evm_checker.retryRequest fn (Some n) delay w = (w, Ok None).
Proof.
  intros Hn. rewrite bitcoin_retryRequest_attempts, evm_retryRequest_attempts.
  change (default 3 (Some n)) with n. change (default 2 (Some n)) with n.
  by rewrite seqZ_nil by done.
Qed.



(** X18: against a request that fails the same way every time, the
    Bitcoin checker's [retryRequest] makes exactly [maxRetries] attempts,
    waits 2000 ms, 4000 ms, ... (2000 ms times the number of failed
    attempts) between them, and throws the request's error. *)
Theorem bitcoin_retryRequest_gives_up (fn : M A) e maxRetries w :
  framed fn -> eval fn = Throw e -> 1 ≤ default 3 maxRetries ->
  bitcoin_checker.retryRequest fn maxRetries w
  = (w ++ concat ((fun i => trace fn ++ [waited (2000 * (i + 1))])
                    <$> seqZ 0 (default 3 maxRetries - 1))
       ++ trace fn,
     Throw e).
Proof.
  intros Hfr He Hn. rewrite bitcoin_retryRequest_attempts.
  set (n := default 3 maxRetries) in *.
  pose proof (attempts_give_up fn (bitcoin_wait n) e n (fun i => 2000 * (i + 1))
                (conj Hfr He)) as Hgive.
  specialize (Hgive ltac:(unfold bitcoin_wait; by rewrite decide_True)).
  specialize (Hgive ltac:(intros i Hi; unfold bitcoin_wait;
                          by rewrite decide_False by lia)).
  specialize (Hgive (Z.to_nat (n - 1)) 0 w ltac:(lia) ltac:(lia)).
  by replace (Z.of_nat (Z.to_nat (n - 1)) + 1) with n in Hgive by lia;
     replace (Z.of_nat (Z.to_nat (n - 1))) with (n - 1) in Hgive by lia.
Qed.

(** X19: against a request that fails the same way every time, the EVM
    checker's [retryRequest] makes a single attempt when the error mentions
    "Unauthorized" or "API key" or has the code BAD_DATA; otherwise it makes
    [maxRetries] attempts with a wait of [delay] ms between them. Either
    way it throws the request's error. *)
Theorem evm_retryRequest_gives_up (fn : M A) e maxRetries delay w :
  framed fn -> eval fn = Throw e -> 1 ≤ default 2 maxRetries ->
  evm_checker.retryRequest fn maxRetries delay w
  = (w ++ (if evm_checker.not_retried e then []
           else concat ((fun _ => trace fn ++ [waited (default 800 delay)])
                          <$> seqZ 0 (default 2 maxRetries - 1)))
       ++ trace fn,
     Throw e).
Proof.
  intros Hfr He Hn. rewrite evm_retryRequest_attempts.
  set (n := default 2 maxRetries) in *. set (d := default 800 delay).
  destruct (evm_checker.not_retried e) eqn:Hnot.
  - rewrite seqZ_succ by lia. cbn [for_of_returning]. unfold bind.
    rewrite (attempt_rethrows fn _ 0 w _ e (always_fails_run _ _ _ (conj Hfr He))).
    + done.
    + unfold evm_wait. rewrite Hnot. by destruct (decide _).
  - pose proof (attempts_give_up fn (evm_wait n d) e n (fun _ => d)
                  (conj Hfr He)) as Hgive.
    specialize (Hgive ltac:(unfold evm_wait; by rewrite decide_True)).
    specialize (Hgive ltac:(intros i Hi; unfold evm_wait;
                            by rewrite decide_False, Hnot by lia)).
    specialize (Hgive (Z.to_nat (n - 1)) 0 w ltac:(lia) ltac:(lia)).
    by replace (Z.of_nat (Z.to_nat (n - 1)) + 1) with n in Hgive by lia;
       replace (Z.of_nat (Z.to_nat (n - 1))) with (n - 1) in Hgive by lia.
Qed.

End RetryProperties.

(** ** The Bitcoin balance with its fallback *)

Lemma console_error_run line w :
  console_error line w = (w ++ [lib_call "console" "error" line], Ok tt).
Proof. done. Qed.

Section BitcoinBalance.

Context {BalanceInfo : Type}.
Variables getBalanceBlockstream getBalanceMempool : string -> M BalanceInfo.

(** X20: [getBTCBalance] returns a balance that one of the two APIs
    returned, never [undefined]; and whatever the APIs threw, the only
    error it throws is [Error("All Bitcoin APIs failed")]. *)
Theorem getBTCBalance_outcomes address w :
  match outcome (bitcoin_checker.getBTCBalance getBalanceBlockstream
                   getBalanceMempool address) w with
  | Ok (Some b) =>
      ∃ w', outcome (getBalanceBlockstream address) w' = Ok b
            ∨ outcome (getBalanceMempool address) w' = Ok b
  | Ok None => False
  | Throw e => e = JsError "All Bitcoin APIs failed"
  end.
Proof.
  unfold outcome at 1, bitcoin_checker.getBTCBalance, try_catch.
  pose proof (bitcoin_retryRequest_hands_on (getBalanceBlockstream address)
                None w ltac:(done)) as Hfirst.
  unfold outcome at 1 in Hfirst.
  destruct (bitcoin_checker.retryRequest (getBalanceBlockstream address) None w)
    as [w1 [[b|]|e1]]; cbn [snd] in *; [|done|].
  { destruct Hfirst as [w' Hb]. exists w'. by left. }
  unfold bind. rewrite console_error_run.
  pose proof (bitcoin_retryRequest_hands_on (getBalanceMempool address)
                None (w1 ++ [blockstream_failed]) ltac:(done)) as Hsecond.
  unfold outcome at 1 in Hsecond. fold blockstream_failed.
  destruct (bitcoin_checker.retryRequest (getBalanceMempool address) None _)
    as [w2 [[b|]|e2]]; cbn [snd] in *; [|done..].
  destruct Hsecond as [w' Hb]. exists w'. by right.
Qed.

(** X21: when Blockstream answers the first request, [getBTCBalance]
    returns that answer and does nothing beyond that request: no wait, no
    warning, no request to Mempool. *)
Theorem getBTCBalance_first_answer address w w' b :
  getBalanceBlockstream address w = (w', Ok b) ->
  bitcoin_checker.getBTCBalance getBalanceBlockstream getBalanceMempool address w
  = (w', Ok (Some b)).
Proof.
  intros Hb. unfold bitcoin_checker.getBTCBalance, try_catch.
  rewrite bitcoin_retryRequest_attempts. change (default 3 None) with 3.
  rewrite seqZ_succ by lia. cbn [for_of_returning]. unfold bind.
  by rewrite (attempt_ok _ _ _ _ _ _ Hb).
Qed.

(** X22: when both APIs fail the same way every time, one call costs
    three requests to Blockstream, the warning, three requests to Mempool,
    and waits of 2000 ms and 4000 ms on either side: twelve seconds of
    waiting before [Error("All Bitcoin APIs failed")] is thrown. *)
Theorem getBTCBalance_both_down address e1 e2 w :
  framed (getBalanceBlockstream address) ->
  eval (getBalanceBlockstream address) = Throw e1 ->
  framed (getBalanceMempool address) ->
  eval (getBalanceMempool address) = Throw e2 ->
  bitcoin_checker.getBTCBalance getBalanceBlockstream getBalanceMempool address w
  = (w ++ trace (getBalanceBlockstream address) ++ [waited 2000]
       ++ trace (getBalanceBlockstream address) ++ [waited 4000]
       ++ trace (getBalanceBlockstream address)
       ++ [blockstream_failed]
       ++ trace (getBalanceMempool address) ++ [waited 2000]
       ++ trace (getBalanceMempool address) ++ [waited 4000]
       ++ trace (getBalanceMempool address),
     Throw (JsError "All Bitcoin APIs failed")).
Proof.
  intros Hb1 Hb2 Hm1 Hm2. unfold bitcoin_checker.getBTCBalance, try_catch.
  rewrite (bitcoin_retryRequest_fails _ e1 None w Hb1 Hb2) by done.
  unfold bind. rewrite console_error_run.
  rewrite (bitcoin_retryRequest_fails _ e2 None _ Hm1 Hm2) by done.
  unfold throw. f_equal. change (default 3 None - 1) with 2.
  change (seqZ 0 2) with [0; 1]. cbn [fmap list_fmap concat].
  change (2000 * (0 + 1)) with 2000. change (2000 * (1 + 1)) with 4000.
  fold blockstream_failed. by rewrite <- !(assoc_L (++)).
Qed.

(** X23: when Blockstream fails the same way every time and Mempool
    answers, the answer of Mempool is returned after three requests to
    Blockstream, six seconds of waiting and the warning. *)
Theorem getBTCBalance_falls_back address e b w w' :
  framed (getBalanceBlockstream address) ->
  eval (getBalanceBlockstream address) = Throw e ->
  getBalanceMempool address
    (w ++ trace (getBalanceBlockstream address) ++ [waited 2000]
       ++ trace (getBalanceBlockstream address) ++ [waited 4000]
       ++ trace (getBalanceBlockstream address) ++ [blockstream_failed])
  = (w', Ok b) ->
  bitcoin_checker.getBTCBalance getBalanceBlockstream getBalanceMempool address w
  = (w', Ok (Some b)).
Proof.
  intros Hb1 Hb2 Hm. unfold bitcoin_checker.getBTCBalance, try_catch.
  rewrite (bitcoin_retryRequest_fails _ e None w Hb1 Hb2) by done.
  unfold bind. rewrite console_error_run.
  change (default 3 None - 1) with 2.
  rewrite bitcoin_retryRequest_attempts. change (default 3 None) with 3.
  rewrite (seqZ_succ 0 3) by lia. cbn [for_of_returning]. unfold bind.
  change (seqZ 0 2) with [0; 1]. cbn [fmap list_fmap concat].
  change (2000 * (0 + 1)) with 2000. change (2000 * (1 + 1)) with 4000.
  fold blockstream_failed.
  rewrite <- !(assoc_L (++)) in *. cbn [app] in *.
  by rewrite (attempt_ok _ _ _ _ _ _ Hm).
Qed.

End BitcoinBalance.

(** ** The Stacks balance *)

Lemma BigInt_toString_zero n : BigInt_toString n = "0" ↔ n = 0.
Proof.
  unfold BigInt_toString. change "0" with (pretty 0). split; [|by intros ->].
  apply (inj pretty).
Qed.

Lemma whole_units_zero n : n ÷ 1000000 = 0 ↔ -1000000 < n < 1000000.
Proof. rewrite Z.quot_small_iff by done. lia. Qed.

(** The quotient of two BigInts drops the fraction, whatever the sign. *)
Lemma whole_units_toward_zero n :
  1000000 * Z.abs (n ÷ 1000000) ≤ Z.abs n < 1000000 * (Z.abs (n ÷ 1000000) + 1)
  ∧ 0 ≤ (n ÷ 1000000) * n.
Proof.
  pose proof (Z.quot_rem' n 1000000) as Hn.
  destruct (Z.le_gt_cases 0 n) as [Hpos|Hneg].
  - pose proof (Z.rem_bound_pos n 1000000 Hpos ltac:(lia)).
    pose proof (Z.quot_pos n 1000000 Hpos ltac:(lia)). nia.
  - pose proof (Z.rem_bound_pos_neg n 1000000 ltac:(lia) ltac:(lia)).
    assert (n ÷ 1000000 ≤ 0) by lia. nia.
Qed.

Section StacksBalance.

Import stacks_checker.

Context {json_values : Json} {error_fields : ErrorFields}.
Variable axios_get : string -> M (option Stx).

(** X24: [getStacksBalance] reports whole STX, rounded toward zero: when
    the reply holds the integer amounts [b] and [l] in micro-STX, the two
    strings returned are the decimal numerals of the integers [qb] and [ql]
    that have the sign of [b] and [l] and satisfy
    [1000000 * |qb| <= |b| < 1000000 * (|qb| + 1)], likewise for [l].  So an
    amount is reported as "0" exactly when it is below one STX, that is
    1000000 micro-STX, in absolute value. *)
Theorem getStacksBalance_reports_whole_STX address w w' stx b l :
  axios_get (balances_url address) w = (w', Ok (Some stx)) ->
  BigInt (stx_balance stx) = Ok b ->
  BigInt (stx_locked stx) = Ok l ->
  ∃ qb ql,
    getStacksBalance axios_get address w
    = (w', Ok {| balance := BigInt_toString qb; locked := BigInt_toString ql |})
    ∧ 1000000 * Z.abs qb ≤ Z.abs b < 1000000 * (Z.abs qb + 1)
    ∧ 0 ≤ qb * b
    ∧ 1000000 * Z.abs ql ≤ Z.abs l < 1000000 * (Z.abs ql + 1)
    ∧ 0 ≤ ql * l
    ∧ (BigInt_toString qb = "0" ↔ -1000000 < b < 1000000)
    ∧ (BigInt_toString ql = "0" ↔ -1000000 < l < 1000000).
Proof.
  unfold balances_url. intros Hget Hb Hl.
  exists (b ÷ 1000000), (l ÷ 1000000).
  destruct (whole_units_toward_zero b) as [Hqb Hsb].
  destruct (whole_units_toward_zero l) as [Hql Hsl].
  split; [|by rewrite !BigInt_toString_zero, !whole_units_zero].
  unfold getStacksBalance, try_catch, bind, eval_expr.
  by rewrite Hget, Hb, Hl.
Qed.

(** X25: an address the API answers with status 404, and a reply
    without [stx], are reported like an empty account: balance "0",
    locked "0", no error. *)
Theorem getStacksBalance_unknown_address address w :
  (∃ e, outcome (axios_get (balances_url address)) w = Throw e
        ∧ error_response_status e = Some 404)
  ∨ outcome (axios_get (balances_url address)) w = Ok None ->
  outcome (getStacksBalance axios_get address) w
  = Ok {| balance := "0"; locked := "0" |}.
Proof.
  unfold balances_url, outcome, getStacksBalance, try_catch, bind, eval_expr.
  destruct (axios_get _ w) as [w' r]. cbn [snd].
  intros [(e & -> & He)| ->]; [|done]. by rewrite He, bool_decide_eq_true_2.
Qed.

(** X26: an error thrown by [getStacksBalance] is the error of the
    request or of one of the two [BigInt] conversions, and never one with
    [response.status] 404. *)
Theorem getStacksBalance_errors address w e :
  outcome (getStacksBalance axios_get address) w = Throw e ->
  error_response_status e ≠ Some 404
  ∧ (outcome (axios_get (balances_url address)) w = Throw e
     ∨ ∃ stx, outcome (axios_get (balances_url address)) w = Ok (Some stx)
              ∧ (BigInt (stx_balance stx) = Throw e
                 ∨ BigInt (stx_locked stx) = Throw e)).
Proof.
  unfold balances_url, outcome, getStacksBalance, try_catch, bind, eval_expr.
  destruct (axios_get _ w) as [w' [[stx|]|e']]; cbn [snd]; [| done |].
  - destruct (BigInt (stx_balance stx)) as [b|e1] eqn:Hb.
    + destruct (BigInt (stx_locked stx)) as [l|e2] eqn:Hl; [done|].
      case_bool_decide as Hs; [done|]. intros [= ->]. split; [done|].
      right. exists stx. auto.
    + case_bool_decide as Hs; [done|]. intros [= ->]. split; [done|].
      right. exists stx. auto.
  - case_bool_decide as Hs; [done|]. intros [= ->]. auto.
Qed.

End StacksBalance.

(** ** The checker properties on concrete runs *)

Lemma retryRequest_without_attempts_witness :
  0 ≤ 0
  ∧ bitcoin_checker.retryRequest (refused "u") (Some 0) [] = ([], Ok None)
  ∧ evm_checker.retryRequest (error_fields := axios_errors) (refused "u")
      (Some 0) None []
    = ([], Ok None).
Proof.
  assert (0 ≤ 0) as Hn by lia. split; [exact Hn|].
  exact (retryRequest_without_attempts (error_fields := axios_errors)
           (refused "u") 0 None [] Hn).
Defined.



Lemma bitcoin_retryRequest_gives_up_witness :
  bitcoin_checker.retryRequest (refused "u") None []
  = ([lib_call "axios" "get" "u"; waited 2000;
      lib_call "axios" "get" "u"; waited 4000;
      lib_call "axios" "get" "u"],
     Throw (JsError "connect ETIMEDOUT")).
Proof.
  rewrite (bitcoin_retryRequest_gives_up (refused "u")
             (JsError "connect ETIMEDOUT") None []);
    [reflexivity|apply framed_call|reflexivity|cbn; lia].
Defined.

Lemma evm_retryRequest_gives_up_witness :
  evm_checker.retryRequest (error_fields := axios_errors) (refused "u")
    (Some 3) (Some 500) []
  = ([lib_call "axios" "get" "u"; waited 500;
      lib_call "axios" "get" "u"; waited 500;
      lib_call "axios" "get" "u"],
     Throw (JsError "connect ETIMEDOUT")).
Proof.
  rewrite (evm_retryRequest_gives_up (error_fields := axios_errors) (refused "u")
             (JsError "connect ETIMEDOUT") (Some 3) (Some 500) []);
    [reflexivity|apply framed_call|reflexivity|cbn; lia].
Defined.

Lemma getBTCBalance_first_answer_witness :
  bitcoin_checker.getBTCBalance (fun a => answered ("blockstream/" +:+ a) 7)
    (fun a => refused ("mempool/" +:+ a)) "bc1q" []
  = ([lib_call "axios" "get" "blockstream/bc1q"], Ok (Some 7)).
Proof.
  apply (getBTCBalance_first_answer (fun a => answered ("blockstream/" +:+ a) 7)
           (fun a => refused ("mempool/" +:+ a)) "bc1q" []).
  reflexivity.
Defined.

Lemma getBTCBalance_both_down_witness :
  ∃ w, bitcoin_checker.getBTCBalance (fun a => refused ("blockstream/" +:+ a))
         (fun a => refused ("mempool/" +:+ a)) "bc1q" []
       = (w, Throw (JsError "All Bitcoin APIs failed"))
       ∧ length w = 11%nat.
Proof.
  eexists. split; [|shelve].
  apply (getBTCBalance_both_down (fun a => refused ("blockstream/" +:+ a))
           (fun a => refused ("mempool/" +:+ a)) "bc1q"
           (JsError "connect ETIMEDOUT") (JsError "connect ETIMEDOUT") []);
    [apply framed_call|reflexivity|apply framed_call|reflexivity].
  Unshelve. reflexivity.
Defined.

Lemma getBTCBalance_falls_back_witness :
  ∃ w, bitcoin_checker.getBTCBalance (fun a => refused ("blockstream/" +:+ a))
         (fun a => answered ("mempool/" +:+ a) 7) "bc1q" []
       = (w, Ok (Some 7)).
Proof.
  eexists.
  apply (getBTCBalance_falls_back (fun a => refused ("blockstream/" +:+ a))
           (fun a => answered ("mempool/" +:+ a) 7) "bc1q"
           (JsError "connect ETIMEDOUT") 7 []);
    [apply framed_call|reflexivity|reflexivity].
Defined.

Lemma getStacksBalance_reports_whole_STX_witness :
  stacks_checker.getStacksBalance (error_fields := axios_errors) hiro "SP1" []
  = ([lib_call "axios" "get"
        "https://api.mainnet.hiro.so/extended/v1/address/SP1/balances"],
     Ok {| stacks_checker.balance := "1"; stacks_checker.locked := "-2" |}).
Proof.
  destruct (getStacksBalance_reports_whole_STX (json_values := amounts)
              (error_fields := axios_errors) hiro "SP1" [] _
              (@stacks_checker.Build_Stx amounts (Some 1999999) (Some (-2500000)))
              1999999 (-2500000) eq_refl eq_refl eq_refl)
    as (qb & ql & Hrun & Hqb & Hsb & Hql & Hsl & _).
  assert (qb = 1) as -> by lia. assert (ql = -2) as -> by lia.
  exact Hrun.
Defined.

Lemma getStacksBalance_unknown_address_witness :
  outcome (stacks_checker.getStacksBalance (error_fields := axios_errors) hiro "SP9") []
  = Ok {| stacks_checker.balance := "0"; stacks_checker.locked := "0" |}.
Proof.
  apply (getStacksBalance_unknown_address (json_values := amounts)
           (error_fields := axios_errors) hiro "SP9" []).
  left. eexists. split; reflexivity.
Defined.

Lemma getStacksBalance_errors_witness :
  ∃ e, outcome (stacks_checker.getStacksBalance (error_fields := axios_errors)
                  hiro "SP2") []
       = Throw e
       ∧ error_response_status (ErrorFields := axios_errors) e ≠ Some 404.
Proof.
  eexists. split; [vm_compute; reflexivity|].
  apply (getStacksBalance_errors (json_values := amounts)
           (error_fields := axios_errors) hiro "SP2" []).
  vm_compute. reflexivity.
Defined.

(** ** The summary of a report *)

Section Summary.

Import report.

Lemma count_address_spec chain st address data :
  let st' := count_address chain st (address, data) in
  totalAddressesChecked (summary st') = totalAddressesChecked (summary st) + 1
  ∧ addressesWithFunds (summary st')
    = addressesWithFunds (summary st) + Z.of_nat (length (active [(address, data)]))
  ∧ chainAddressesWithFunds st'
    = chainAddressesWithFunds st + Z.of_nat (length (active [(address, data)]))
  ∧ chainsChecked (summary st') = chainsChecked (summary st)
  ∧ chainsWithFunds (summary st') = chainsWithFunds (summary st)
  ∧ totalUsdEstimate (summary st') = totalUsdEstimate (summary st)
  ∧ balancesByChain (summary st') = balancesByChain (summary st)
  ∧ errors (summary st') = errors (summary st) ++ reported chain [(address, data)].
Proof.
  unfold count_address, active, reported. cbn [summary chainAddressesWithFunds
    totalAddressesChecked addressesWithFunds chainsChecked chainsWithFunds
    totalUsdEstimate balancesByChain errors omap list_omap fst snd].
  rewrite filter_cons, filter_nil. cbn [snd].
  split_and!; try done.
  - destruct (hasActivity data);
      [rewrite decide_True by done|rewrite decide_False by done];
      cbn [length]; lia.
  - destruct (hasActivity data);
      [rewrite decide_True by done|rewrite decide_False by done];
      cbn [length]; lia.
  - destruct (error data) as [msg|]; [|by rewrite app_nil_r].
    destruct (truthy (Some msg)); [done|by rewrite app_nil_r].
Qed.

Lemma count_addresses_spec chain addresses st :
  let st' := fold_left (count_address chain) addresses st in
  totalAddressesChecked (summary st')
  = totalAddressesChecked (summary st) + Z.of_nat (length addresses)
  ∧ addressesWithFunds (summary st')
    = addressesWithFunds (summary st) + Z.of_nat (length (active addresses))
  ∧ chainAddressesWithFunds st'
    = chainAddressesWithFunds st + Z.of_nat (length (active addresses))
  ∧ chainsChecked (summary st') = chainsChecked (summary st)
  ∧ chainsWithFunds (summary st') = chainsWithFunds (summary st)
  ∧ totalUsdEstimate (summary st') = totalUsdEstimate (summary st)
  ∧ balancesByChain (summary st') = balancesByChain (summary st)
  ∧ errors (summary st') = errors (summary st) ++ reported chain addresses.
Proof.
  revert st. induction addresses as [|[address data] addresses IH]; intros st.
  { cbn. rewrite app_nil_r. split_and!; try done; lia. }
  cbn [fold_left]. cbv zeta in *.
  destruct (IH (count_address chain st (address, data)))
    as (-> & -> & -> & -> & -> & -> & -> & ->).
  destruct (count_address_spec chain st address data)
    as (-> & -> & -> & -> & -> & -> & -> & ->).
  change ((address, data) :: addresses) with ([(address, data)] ++ addresses).
  unfold active, reported. rewrite filter_app, omap_app, !length_app.
  split_and!; try done; try (cbn [length]; lia). by rewrite (assoc_L (++)).
Qed.

Lemma count_chain_spec s chain addresses :
  let s' := count_chain s (chain, addresses) in
  totalAddressesChecked s' = totalAddressesChecked s + Z.of_nat (length addresses)
  ∧ addressesWithFunds s'
    = addressesWithFunds s + Z.of_nat (length (active addresses))
  ∧ chainsChecked s' = chainsChecked s
  ∧ chainsWithFunds s' = chainsWithFunds s ++ (funded [(chain, addresses)]).*1
  ∧ totalUsdEstimate s' = totalUsdEstimate s
  ∧ errors s' = errors s ++ reported chain addresses
  ∧ (active addresses = [] -> balancesByChain s' = balancesByChain s)
  ∧ (active addresses ≠ [] ->
     ∃ usd, balancesByChain s'
            = obj_set chain
                {| chain_addressesWithFunds := Z.of_nat (length (active addresses));
                   totalUsdValue := usd |}
                (balancesByChain s)).
Proof.
  unfold count_chain, funded. rewrite filter_cons, filter_nil. cbn [snd].
  set (st0 := {| summary := s; chainTotal := 0%float;
                 chainAddressesWithFunds := 0 |}).
  destruct (count_addresses_spec chain addresses st0)
    as (Ht & Hf & Hn & Hc & Hw & Hu & Hb & He). cbv zeta in *.
  change (summary st0) with s in *.
  change (chainAddressesWithFunds st0) with 0 in *.
  set (st := fold_left (count_address chain) addresses st0) in *.
  destruct (active addresses) as [|entry rest] eqn:Hactive.
  - rewrite decide_False by (rewrite Hn; cbn; lia).
    destruct (decide (_ ≠ _)) as [Hne|_]; [by destruct Hne|].
    cbn [fmap list_fmap]. rewrite app_nil_r. split_and!; try done.
  - rewrite decide_True by (rewrite Hn; cbn [length]; lia).
    rewrite decide_True by done.
    cbn [totalAddressesChecked addressesWithFunds chainsChecked chainsWithFunds
         totalUsdEstimate balancesByChain errors fmap list_fmap fst].
    split_and!; try done; [by rewrite Hw|].
    intros _. exists (chainTotal st). by rewrite Hn, Hb.
Qed.


Lemma count_chains_spec results s :
  let s' := fold_left count_chain results s in
  totalAddressesChecked s'
  = totalAddressesChecked s + Z.of_nat (length (all_addresses results))
  ∧ addressesWithFunds s'
    = addressesWithFunds s + Z.of_nat (length (active (all_addresses results)))
  ∧ chainsChecked s' = chainsChecked s
  ∧ chainsWithFunds s' = chainsWithFunds s ++ (funded results).*1
  ∧ totalUsdEstimate s' = totalUsdEstimate s
  ∧ errors s'
    = errors s ++ concat ((fun entry => reported entry.1 entry.2) <$> results).
Proof.
  revert s. induction results as [|[chain addresses] results IH]; intros s.
  { cbn. rewrite !app_nil_r. split_and!; try done; lia. }
  cbn [fold_left]. cbv zeta in *.
  destruct (IH (count_chain s (chain, addresses))) as (-> & -> & -> & -> & -> & ->).
  destruct (count_chain_spec s chain addresses) as (-> & -> & -> & -> & -> & -> & _).
  change ((chain, addresses) :: results) with ([(chain, addresses)] ++ results).
  unfold all_addresses, funded, active.
  rewrite !fmap_app, concat_app, !filter_app, !fmap_app, !length_app, concat_app.
  cbn [fmap list_fmap concat snd fst]. rewrite !app_nil_r.
  split_and!; try done; try lia; by rewrite (assoc_L (++)).
Qed.

(** What [balancesByChain] gains from chains not yet in it. *)
Lemma obj_set_fresh {V} k (v : V) obj :
  k ≠ "__proto__" -> k ∉ obj.*1 -> obj_set k v obj = obj ++ [(k, v)].
Proof.
  intros Hproto. induction obj as [|[k' v'] obj IH]; cbn [obj_set].
  { by rewrite decide_False by done. }
  cbn [fmap list_fmap fst]. intros [Hk Hobj]%not_elem_of_cons.
  rewrite !decide_False by done. by rewrite IH.
Qed.

Lemma count_chains_balances results s :
  NoDup (results.*1) ->
  "__proto__" ∉ (results.*1) ->
  (∀ chain, chain ∈ (balancesByChain s).*1 -> chain ∉ results.*1) ->
  ∃ added,
    balancesByChain (fold_left count_chain results s) = balancesByChain s ++ added
    ∧ Forall2 (fun b entry =>
                 b.1 = entry.1
                 ∧ chain_addressesWithFunds b.2
                   = Z.of_nat (length (active entry.2)))
              added (funded results).
Proof.
  revert s.
  induction results as [|[chain addresses] results IH]; intros s Hnd Hproto Hs.
  { exists []. cbn. by rewrite app_nil_r. }
  cbn [fmap list_fmap fst] in Hnd, Hproto, Hs.
  apply NoDup_cons in Hnd as [Hchain Hnd].
  apply not_elem_of_cons in Hproto as [Hname Hproto].
  cbn [fold_left]. unfold funded. rewrite filter_cons. cbn [snd].
  destruct (count_chain_spec s chain addresses)
    as (_ & _ & _ & _ & _ & _ & Hsame & Hset). cbv zeta in *.
  destruct (decide (active addresses ≠ [])) as [Hne|Heq%dec_stable].
  - destruct (Hset Hne) as [usd Hb].
    rewrite obj_set_fresh in Hb; [|done|].
    2:{ intros Hin. apply Hs in Hin. apply Hin. by left. }
    destruct (IH (count_chain s (chain, addresses)) Hnd Hproto)
      as (added & -> & Hall).
    { rewrite Hb, fmap_app. cbn [fmap list_fmap fst].
      intros c [Hc| ->%list_elem_of_singleton]%elem_of_app; [|done].
      intros Hin. apply (Hs c Hc). by right. }
    eexists (_ :: added). rewrite Hb, <- (assoc_L (++)). split; [done|].
    by constructor.
  - destruct (IH (count_chain s (chain, addresses)) Hnd Hproto)
      as (added & -> & Hall).
    { rewrite (Hsame Heq). intros c Hc Hin. apply (Hs c Hc). by right. }
    exists added. by rewrite (Hsame Heq).
Qed.

Lemma funded_counts results :
  foldr Z.add 0 ((fun entry => Z.of_nat (length (active entry.2))) <$> funded results)
  = Z.of_nat (length (active (all_addresses results))).
Proof.
  induction results as [|[chain addresses] results IH]; [done|].
  unfold funded, all_addresses, active in *. cbn [fmap list_fmap concat snd].
  rewrite filter_cons, filter_app, length_app. cbn [snd].
  destruct (decide (_ ≠ [])) as [Hne|Heq%dec_stable].
  - cbn [fmap list_fmap foldr snd]. rewrite IH. lia.
  - rewrite IH, Heq. cbn [length]. lia.
Qed.

Lemma elem_of_concat {X} (x : X) (ls : list (list X)) :
  x ∈ concat ls ↔ ∃ l, x ∈ l ∧ l ∈ ls.
Proof.
  induction ls as [|l ls IH]; cbn [concat].
  - rewrite elem_of_nil. split; [done|]. by intros (l & _ & Hl%elem_of_nil).
  - rewrite elem_of_app, IH. split.
    + intros [Hx|(l' & Hx & Hl')]; [exists l|exists l']; split; try done.
      * by left.
      * by right.
    + intros (l' & Hx & [->|Hl']%elem_of_cons); [by left|right; eauto].
Qed.

Lemma length_reported chain addresses :
  (length (reported chain addresses) ≤ length addresses)%nat.
Proof. apply length_omap_le. Qed.

(** X27: in a summary, [chainsChecked] is the number of chains,
    [totalAddressesChecked] the number of entries of all chains,
    [addressesWithFunds] the number of those with [hasActivity]; so
    [addressesWithFunds] never exceeds [totalAddressesChecked]. *)
Theorem generateSummary_counts results :
  let s := generateSummary results in
  chainsChecked s = Z.of_nat (length results)
  ∧ totalAddressesChecked s = Z.of_nat (length (all_addresses results))
  ∧ addressesWithFunds s = Z.of_nat (length (active (all_addresses results)))
  ∧ 0 ≤ addressesWithFunds s ≤ totalAddressesChecked s.
Proof.
  cbv zeta. unfold generateSummary.
  match goal with |- context [fold_left count_chain results ?s0] =>
    destruct (count_chains_spec results s0) as (Ht & Hf & Hc & _) end.
  cbv zeta in *. rewrite Ht, Hf, Hc.
  cbn [totalAddressesChecked addressesWithFunds chainsChecked].
  split_and!; try done; try lia.
  pose proof (length_filter (fun entry : string * AddressData =>
                               hasActivity entry.2 = true)
                (all_addresses results)). unfold active. lia.
Qed.

(** X28: when no chain is listed twice and none is named [__proto__],
    [chainsWithFunds] lists the chains with at least one active entry, in the
    order of [results]; [balancesByChain] has exactly these keys, each with
    the number of active entries of its chain, and these numbers add up to
    [addressesWithFunds]. *)
Theorem generateSummary_chains_with_funds results :
  NoDup (results.*1) ->
  "__proto__" ∉ (results.*1) ->
  let s := generateSummary results in
  chainsWithFunds s = (funded results).*1
  ∧ (balancesByChain s).*1 = chainsWithFunds s
  ∧ Forall2 (fun b entry =>
               chain_addressesWithFunds b.2 = Z.of_nat (length (active entry.2)))
            (balancesByChain s) (funded results)
  ∧ foldr Z.add 0 ((fun b => chain_addressesWithFunds b.2) <$> balancesByChain s)
    = addressesWithFunds s.
Proof.
  intros Hnd Hproto. cbv zeta. unfold generateSummary.
  match goal with |- context [fold_left count_chain results ?s0] =>
    destruct (count_chains_spec results s0) as (_ & Hf & _ & Hw & _);
    destruct (count_chains_balances results s0 Hnd Hproto) as (added & Hb & Hall);
      [by intros c Hc%elem_of_nil|]
  end.
  cbv zeta in *. rewrite Hw, Hb, Hf.
  cbn [chainsWithFunds balancesByChain addressesWithFunds app].
  rewrite <- funded_counts. clear Hb Hw Hf.
  induction Hall as [|[k b] [chain addresses] added rest [Hk Hn] Hall IH];
    [done|].
  cbn [fst snd] in *. destruct IH as (_ & IH1 & IH2 & IH3).
  cbn [fmap list_fmap fst snd foldr]. split_and!.
  - done.
  - by rewrite Hk, IH1.
  - by constructor.
  - rewrite Hn, IH3. lia.
Qed.

(** X29: [summary.errors] holds a record for an entry exactly when the
    entry's [error] is a non-empty string; an entry without [error], or
    with the empty message, leaves no trace. So there are at most
    [totalAddressesChecked] error records. *)
Theorem generateSummary_errors results :
  let s := generateSummary results in
  (∀ e, e ∈ errors s ↔
     entry_error e ≠ ""
     ∧ ∃ addresses data,
         (entry_chain e, addresses) ∈ results
         ∧ (entry_address e, data) ∈ addresses
         ∧ error data = Some (entry_error e))
  ∧ Z.of_nat (length (errors s)) ≤ totalAddressesChecked s.
Proof.
  cbv zeta. unfold generateSummary.
  match goal with |- context [fold_left count_chain results ?s0] =>
    destruct (count_chains_spec results s0) as (Ht & _ & _ & _ & _ & He) end.
  cbv zeta in *. rewrite He, Ht. cbn [errors totalAddressesChecked app]. split.
  - intros e. rewrite elem_of_concat. setoid_rewrite list_elem_of_fmap. split.
    + intros (l & Hl & [chain addresses] & -> & Hin). cbn [fst snd] in Hl.
      apply list_elem_of_omap in Hl as ([address data] & Hentry & Hsome).
      cbn [fst snd] in Hsome. destruct (error data) as [msg|] eqn:Hmsg; [|done].
      destruct msg as [|c msg]; [done|]. cbn in Hsome. injection Hsome as <-.
      cbn. split; [done|]. by exists addresses, data.
    + intros (Hne & addresses & data & Hin & Hentry & Herr).
      exists (reported (entry_chain e) addresses). split.
      * apply list_elem_of_omap. exists (entry_address e, data). split; [done|].
        cbn [fst snd]. rewrite Herr. destruct e as [c a msg]. cbn in *.
        by destruct msg.
      * by exists (entry_chain e, addresses).
  - unfold all_addresses. clear. induction results as [|[chain addresses] results IH];
      [done|].
    cbn [fmap list_fmap concat fst snd]. rewrite !length_app.
    pose proof (length_reported chain addresses). lia.
Qed.

End Summary.

(** ** The summary on a concrete report *)

Lemma generateSummary_chains_with_funds_witness :
  NoDup (sample_results.*1)
  ∧ ("__proto__" ∉ sample_results.*1)
  ∧ report.chainsWithFunds (report.generateSummary sample_results) = ["ethereum"]
  ∧ (report.balancesByChain (report.generateSummary sample_results)).*1
    = ["ethereum"].
Proof.
  assert (NoDup (sample_results.*1)) as Hnd.
  { apply (bool_decide_unpack _). vm_compute. reflexivity. }
  assert ("__proto__" ∉ sample_results.*1) as Hproto.
  { apply (bool_decide_unpack _). vm_compute. reflexivity. }
  split; [exact Hnd|]. split; [exact Hproto|].
  destruct (generateSummary_chains_with_funds sample_results Hnd Hproto)
    as (Hchains & Hkeys & _).
  rewrite Hkeys, Hchains. split; reflexivity.
Defined.
